(** * DeepFool-Linf attack (img_attacks/deepfool.py): model and properties

    A shallow embedding of [DeepfoolLinfAttack] and the properties of its
    driver [perturb].

    Numbers are exact rationals ([Q]); a tensor of shape (N, ...D) is a list
    of N samples, each sample the flat list of its D entries (the code only
    uses element-wise operations and a sum over the flattened non-batch
    dimensions, so the flat view loses nothing); rounding of floating-point
    arithmetic is not modelled.  Python exceptions are the [Raise] results
    of an error monad; the attack object is a record that [perturb] takes
    and gives back; the gradient buffer [x.grad] is a field of the tensor
    record; the random generator is a function from rows to raw draws.
    Every run of [perturb] carries the trace of its iterations and of the
    [get_grads] calls each of them made. *)

From Stdlib Require Import List Bool Arith ZArith QArith Qabs Qminmax Lia Lqa.
From Stdlib Require Import Permutation Sorted.
Import ListNotations.

Local Open Scope nat_scope.

(** ** Tensors *)

Abbreviation sample := (list Q) (only parsing).
Abbreviation batch := (list (list Q)) (only parsing).

Fixpoint map2 {A B C : Type} (f : A -> B -> C) (l1 : list A) (l2 : list B)
  : list C :=
  match l1, l2 with
  | a :: t1, b :: t2 => f a b :: map2 f t1 t2
  | _, _ => []
  end.

Definition Qsum (l : list Q) : Q := fold_right Qplus 0%Q l.

(** [torch.zeros_like] *)
Definition zeros_like (x : batch) : batch := map (map (fun _ => 0%Q)) x.

(** element-wise [a + b] and [c * a] on batches *)
Definition t_add (a b : batch) : batch := map2 (map2 Qplus) a b.
Definition t_scale (c : Q) (a : batch) : batch := map (map (Qmult c)) a.

(** [torch.clamp]: [min(max(v, lo), hi)] *)
Definition clamp (lo hi v : Q) : Q := Qmin (Qmax v lo) hi.
Definition clamp_ (x : batch) (lo hi : Q) : batch := map (map (clamp lo hi)) x.

(** [torch.sign]: -1, 0 or 1 *)
Definition sign (v : Q) : Q := inject_Z (Z.sgn (Qnum v)).

(** [torch.where(cond, a, b)] with [cond] of shape (N,) broadcast over the
    sample dimensions ([atleast_kd(is_adv, x.ndim)]), for a mask and two
    batches of the same N rows: this is the case of every run whose labels
    have the batch's length.  (On other lengths torch broadcasts or raises;
    the theorems that depend on it assume equal lengths.) *)
Fixpoint where_ (cond : list bool) (a b : batch) : batch :=
  match cond, a, b with
  | c :: cs, ra :: ta, rb :: tb => (if c then ra else rb) :: where_ cs ta tb
  | _, _, _ => []
  end.

(** [argmax] and [argmin] over the last axis: index of the first extremum *)
Fixpoint argmax_from (best : nat) (bv : Q) (i : nat) (l : list Q) : nat :=
  match l with
  | [] => best
  | v :: t =>
      match (bv ?= v)%Q with
      | Lt => argmax_from i v (S i) t
      | _ => argmax_from best bv (S i) t
      end
  end.

Definition argmax (l : list Q) : nat :=
  match l with
  | [] => 0
  | v :: t => argmax_from 0 v 1 t
  end.

Fixpoint argmin_from (best : nat) (bv : Q) (i : nat) (l : list Q) : nat :=
  match l with
  | [] => best
  | v :: t =>
      match (v ?= bv)%Q with
      | Lt => argmin_from i v (S i) t
      | _ => argmin_from best bv (S i) t
      end
  end.

Definition argmin (l : list Q) : nat :=
  match l with
  | [] => 0
  | v :: t => argmin_from 0 v 1 t
  end.

(** [argsort(axis=-1)]: indices in ascending order of their value (equal
    values keep their index order); [flip(-1)] reverses each row. *)
Fixpoint insert_idx (l : list Q) (i : nat) (sorted : list nat) : list nat :=
  match sorted with
  | [] => [i]
  | j :: t =>
      if Qle_bool (nth j l 0%Q) (nth i l 0%Q)
      then j :: insert_idx l i t
      else i :: j :: t
  end.

Definition argsort (l : list Q) : list nat :=
  fold_left (fun acc i => insert_idx l i acc) (seq 0 (length l)) [].

Definition flip (l : list nat) : list nat := rev l.

(** An integer tensor of shape (N, cols): the candidate classes per sample. *)
Record ClassTable := { cols : nat; rows : list (list nat) }.

(** ** Exceptions *)

Inductive Error := IndexError | AssertionError | RuntimeError.

Inductive result (A : Type) : Type :=
| Ok (a : A)
| Raise (e : Error).
Arguments Ok {A} a.
Arguments Raise {A} e.

Definition rbind {A B : Type} (r : result A) (f : A -> result B) : result B :=
  match r with
  | Ok a => f a
  | Raise e => Raise e
  end.

Notation "x <- c ;; k" := (rbind c (fun x => k))
  (at level 61, c at next level, right associativity).

(** [classes[:, k]] *)
Definition column (classes : ClassTable) (k : nat) : result (list nat) :=
  if k <? cols classes
  then Ok (map (fun row => nth k row 0) (rows classes))
  else Raise IndexError.

(** [logits[rows, idx]], for one index per row of [logits], each of them a
    column of [logits]: the case of the class table [perturb] builds.  (On
    other index lists torch raises [IndexError].) *)
Definition pick (logits : list (list Q)) (idx : list nat) : list Q :=
  map2 (fun row c => nth c row 0%Q) logits idx.

(** ** The classifier

    [predict] is an opaque differentiable callable.  It is given by its
    number of classes, its score per sample and class, and the partial
    derivative of each score in each input entry (what reverse-mode
    differentiation returns); samples are scored independently. *)
Record Classifier := {
  n_out : nat;
  score : sample -> nat -> Q;
  dscore : sample -> nat -> nat -> Q
}.

(** A tensor that requires grad: its data and its gradient buffer [x.grad]
    ([None] until the first [backward]). *)
Record Tensor := { data : batch; grad : option batch }.

(** [x.clone().detach().requires_grad_()] *)
Definition fresh (d : batch) : Tensor := {| data := d; grad := None |}.

(** A scalar in the autograd graph: its value and what [backward()] adds to
    the buffer of the input it was computed from. *)
Record Scalar := { value : Q; d_dx : batch }.

Record DeltasLogits := {
  dl_sum_deltas : Scalar;
  dl_deltas : list Q;
  dl_logits : list (list Q)
}.

(** the dict returned by [get_grads]: the one of [get_deltas_logits] with
    the key ['grads'] added *)
Record Diff := {
  sum_deltas : Scalar;
  deltas : list Q;
  logits : list (list Q);
  grads : batch
}.

(** [sum_deltas.backward()]: accumulate into the buffer *)
Definition backward (x : Tensor) (s : Scalar) : Tensor :=
  {| data := data x;
     grad := Some (match grad x with
                   | None => d_dx s
                   | Some b => t_add b (d_dx s)
                   end) |}.

(** [x.grad.data.zero_()] *)
Definition zero_grad (x : Tensor) : Tensor :=
  {| data := data x; grad := option_map zeros_like (grad x) |}.

(** ** The attack object *)

Record Attack := {
  num_classes : option Z;
  nb_iter : Z;
  eps : Q;
  random_class : bool;
  overshoot : Q;
  clip_min : Q;
  clip_max : Q
}.

(** [self.num_classes = n] *)
Definition set_num_classes (a : Attack) (n : Z) : Attack :=
  {| num_classes := Some n; nb_iter := nb_iter a; eps := eps a;
     random_class := random_class a; overshoot := overshoot a;
     clip_min := clip_min a; clip_max := clip_max a |}.

(** ** Random draws

    [rng r] is the raw value the generator produces for row [r];
    [random_(1, to)] maps it into [1, to) and refuses an empty range. *)
Definition random_ (rng : nat -> Z) (N : nat) (to : option Z)
  : result (list Z) :=
  match to with
  | Some n =>
      if (1 <? n)%Z
      then Ok (map (fun r => (1 + (rng r) mod (n - 1))%Z) (seq 0 N))
      else Raise RuntimeError
  | None => Ok (map (fun r => (1 + (rng r) mod (2 ^ 63 - 1))%Z) (seq 0 N))
  end.

(** [torch.gather(classes, dim=1, index)] with one index per row *)
Definition gather (classes : ClassTable) (index : list Z)
  : result (list nat) :=
  if forallb (fun j => (0 <=? j)%Z && (j <? Z.of_nat (cols classes))%Z) index
  then Ok (map2 (fun row j => nth (Z.to_nat j) row 0) (rows classes) index)
  else Raise RuntimeError.

(** [torch.cat((a.view(-1, 1), b), dim=-1)] *)
Definition cat (a b : list nat) : ClassTable :=
  {| cols := 2; rows := map2 (fun u v => [u; v]) a b |}.

(** ** Operations of [DeepfoolLinfAttack] *)

(** One [get_grads] call, as seen from outside: the challenger index, the
    tensor it was given, and what it returned. *)
Record CallEvent := {
  ev_k : nat;
  ev_before : Tensor;
  ev_result : result (Diff * Tensor)
}.

(** Loop state of [perturb]: the working point [x] and [p_total]. *)
Record LoopState := { x_cur : Tensor; p_total : batch }.

(** How an iteration of the loop ends. *)
Inductive Flow :=
| Continue (st : LoopState)
| Break (st : LoopState).

Record IterRecord := {
  it_top : LoopState;
  it_calls : list CallEvent;
  it_out : result Flow
}.

(** Computations that log their [get_grads] calls and may raise. *)
Definition Run (A : Type) : Type := (list CallEvent * result A)%type.

Definition run_ret {A : Type} (a : A) : Run A := ([], Ok a).

Definition run_bind {A B : Type} (m : Run A) (f : A -> Run B) : Run B :=
  match m with
  | (l1, Ok a) => let (l2, r) := f a in (l1 ++ l2, r)
  | (l1, Raise e) => (l1, Raise e)
  end.

Definition run_lift {A : Type} (r : result A) : Run A := ([], r).

Notation "x <~ c ;; k" := (run_bind c (fun x => k))
  (at level 61, c at next level, right associativity).

Section DeepfoolLinfAttack.

Variable net : Classifier.

(** [self.predict(x)]: logits of shape (N, C) *)
Definition predict (x : batch) : list (list Q) :=
  map (fun s => map (score net s) (seq 0 (n_out net))) x.

(** gradient of [sum(lk - l0)] in the entries of [x] *)
Definition grad_sum_deltas (x : batch) (i0 ik : list nat) : batch :=
  map2 (fun s (c : nat * nat) =>
          map (fun d => (dscore net s (snd c) d - dscore net s (fst c) d)%Q)
              (seq 0 (length s)))
       x (combine i0 ik).

(** [is_adv], for one label per row of [logits] (the contract on [y]: a
    label tensor of shape (N,)).  On labels of another length torch
    broadcasts a single label and raises otherwise; the theorems that go
    through [is_adv] assume [length y = length x]. *)
Definition is_adv (logits : list (list Q)) (y : list Z) : list bool :=
  map2 (fun row yi => negb (Z.of_nat (argmax row) =? yi)%Z) logits y.

Definition get_deltas_logits (x : batch) (k : nat) (classes : ClassTable)
  : result DeltasLogits :=
  i0 <- column classes 0 ;;
  let logits := predict x in
  ik <- column classes k ;;
  let l0 := pick logits i0 in
  let lk := pick logits ik in
  let delta_logits := map2 Qminus lk l0 in
  Ok {| dl_sum_deltas := {| value := Qsum delta_logits;
                            d_dx := grad_sum_deltas x i0 ik |};
        dl_deltas := delta_logits;
        dl_logits := logits |}.

Definition get_grads (x : Tensor) (k : nat) (classes : ClassTable)
  : result (Diff * Tensor) :=
  deltas_logits <- get_deltas_logits (data x) k classes ;;
  let x1 := backward x (dl_sum_deltas deltas_logits) in
  let g := match grad x1 with Some b => b | None => [] end in
  let x2 := zero_grad x1 in
  Ok ({| sum_deltas := dl_sum_deltas deltas_logits;
         deltas := dl_deltas deltas_logits;
         logits := dl_logits deltas_logits;
         grads := g |}, x2).

Definition eps8 : Q := 1 # 100000000.
Definition eps4 : Q := 1 # 10000.

(** [deltas]: (N, K); [grads]: (N, K, D) flattened from dimension 2 *)
Definition get_distances (deltas : list (list Q)) (grads : list (list sample))
  : list (list Q) :=
  map2 (map2 (fun dl g => (Qabs dl / (Qsum (map Qabs g) + eps8))%Q))
       deltas grads.

(** [atleast_kd(distances, grads.ndim) * grads.sign()] *)
Definition get_perturbations (distances : list Q) (grads : batch) : batch :=
  map2 (fun d g => map (fun v => (d * sign v)%Q) g) distances grads.

(** [torch.stack(..., dim=-1)] of the per-call deltas, [dim=1] of the
    per-call grads, for a batch of [N] samples *)
Definition stack_deltas (N : nat) (diffs : list Diff) : list (list Q) :=
  map (fun r => map (fun d => nth r (deltas d) 0%Q) diffs) (seq 0 N).

Definition stack_grads (N : nat) (diffs : list Diff) : list (list sample) :=
  map (fun r => map (fun d => nth r (grads d) []) diffs) (seq 0 N).

(** [t[rows, best]] *)
Definition take_best {A : Type} (dflt : A) (t : list (list A))
    (best : list nat) : list A :=
  map2 (fun row b => nth b row dflt) t best.

(** The selection of lines 144-154: distances, best challenger per sample,
    and the gathered distance, delta and gradient. *)
Record Selection := {
  sel_all : list (list Q);
  sel_best : list nat;
  sel_distances : list Q;
  sel_deltas : list Q;
  sel_grads : batch
}.

Definition select_best (deltas : list (list Q)) (grads : list (list sample))
  : Selection :=
  let distances := get_distances deltas grads in
  let best := map argmin distances in
  {| sel_all := distances;
     sel_best := best;
     sel_distances := take_best 0%Q distances best;
     sel_deltas := take_best 0%Q deltas best;
     sel_grads := take_best [] grads best |}.

Definition logged_get_grads (x : Tensor) (k : nat) (classes : ClassTable)
  : Run (Diff * Tensor) :=
  let r := get_grads x k classes in
  ([{| ev_k := k; ev_before := x; ev_result := r |}], r).

(** [[self.get_grads(x, k, classes) for k in ks]] *)
Fixpoint get_grads_for (x : Tensor) (ks : list nat) (classes : ClassTable)
  : Run (list Diff * Tensor) :=
  match ks with
  | [] => run_ret ([], x)
  | k :: ks' =>
      dx <~ logged_get_grads x k classes ;;
      rest <~ get_grads_for (snd dx) ks' classes ;;
      run_ret (fst dx :: fst rest, snd rest)
  end.

(** [range(2, n)] *)
Definition range2 (n : Z) : list nat := seq 2 (Z.to_nat (n - 2)).

Section Loop.

Variable a : Attack.          (* the object, [num_classes] already set *)
Variable nc : Z.              (* [self.num_classes] during the loop *)
Variable classes : ClassTable.
Variable x0 : batch.
Variable y : list Z.

(** Lines 143-167: from the stacked deltas and gradients to the next
    [p_total] and the next working point. *)
Definition advance (adv : list bool) (deltas : list (list Q))
    (grads : list (list sample)) (x : Tensor) (p_total : batch)
  : LoopState :=
  let sel := select_best deltas grads in
  let distances := map (fun d => (d + eps4)%Q) (sel_distances sel) in
  let p_step := get_perturbations distances (sel_grads sel) in
  let p := clamp_ (t_add p_total p_step) (- eps a) (eps a) in
  let x' := where_ adv (data x)
                   (t_add x0 (t_scale (1 + overshoot a) p)) in
  let x'' := clamp_ x' (clip_min a) (clip_max a) in
  {| x_cur := fresh x''; p_total := p |}.

(** The body of [for _ in range(self.nb_iter)]. *)
Definition iteration (st : LoopState) : Run Flow :=
  let N := length x0 in
  d1 <~ logged_get_grads (x_cur st) 1 classes ;;
  let adv := is_adv (logits (fst d1)) y in
  if forallb (fun b => b) adv
  then run_ret (Break {| x_cur := snd d1; p_total := p_total st |})
  else
    more <~ get_grads_for (snd d1) (range2 nc) classes ;;
    let diffs := fst d1 :: fst more in
    let deltas := stack_deltas N diffs in
    let grads := stack_grads N diffs in
    if negb (Z.of_nat (length diffs) =? nc - 1)%Z
    then run_lift (Raise AssertionError)
    else run_ret (Continue (advance adv deltas grads (snd more)
                                    (p_total st))).

Fixpoint loop (n : nat) (st : LoopState)
  : list IterRecord * result LoopState :=
  match n with
  | O => ([], Ok st)
  | S n' =>
      let (calls, out) := iteration st in
      let rec := {| it_top := st; it_calls := calls; it_out := out |} in
      match out with
      | Ok (Continue st') =>
          let (tr, r) := loop n' st' in (rec :: tr, r)
      | Ok (Break st') => ([rec], Ok st')
      | Raise e => ([rec], Raise e)
      end
  end.

End Loop.

(** Lines 108-121: the candidate classes and the effective
    [self.num_classes]. *)
Definition init_classes (a : Attack) (rng : nat -> Z) (x : batch)
  : result (Attack * ClassTable) :=
  let lg := predict x in
  let classes := {| cols := n_out net;
                    rows := map (fun row => flip (argsort row)) lg |} in
  if random_class a then
    rand_classes <- random_ rng (length x) (num_classes a) ;;
    _ <- (c0 <- column classes 0 ;;
          g <- gather classes rand_classes ;;
          Ok (cat c0 g)) ;;
    Ok (set_num_classes a 2, classes)
  else
    match num_classes a with
    | None => Ok (set_num_classes a (Z.of_nat (n_out net)), classes)
    | Some n =>
        Ok (set_num_classes a (Z.min n (Z.of_nat (n_out net))), classes)
    end.

(** The result of a call: the attack object afterwards, the iterations
    run, and the tensor returned or the exception raised. *)
Record Call := {
  self_after : Attack;
  trace : list IterRecord;
  returned : result batch
}.

Definition the_num_classes (a : Attack) : Z :=
  match num_classes a with Some n => n | None => 0%Z end.

Definition perturb_run (a : Attack) (rng : nat -> Z) (x : batch)
    (y : list Z) : Call :=
  match init_classes a rng x with
  | Raise e => {| self_after := a; trace := []; returned := Raise e |}
  | Ok (a', classes) =>
      let st := {| x_cur := fresh x; p_total := zeros_like x |} in
      let (tr, r) := loop a' (the_num_classes a') classes x y
                          (Z.to_nat (nb_iter a')) st in
      {| self_after := a'; trace := tr;
         returned := st' <- r ;; Ok (data (x_cur st')) |}
  end.

(** [perturb(x, y)]: the object afterwards and the outcome. *)
Definition perturb (a : Attack) (rng : nat -> Z) (x : batch) (y : list Z)
  : Attack * result batch :=
  let c := perturb_run a rng x y in (self_after c, returned c).

End DeepfoolLinfAttack.

(** * Properties *)

(** ** Generic list facts *)

Lemma map2_length {A B C : Type} (f : A -> B -> C) (l1 : list A)
    (l2 : list B) :
  length (map2 f l1 l2) = Nat.min (length l1) (length l2).
Proof.
  revert l2; induction l1 as [|a t IH]; intros [|b t2]; simpl; auto.
Qed.

Lemma map2_nth {A B C : Type} (f : A -> B -> C) (l1 : list A) (l2 : list B)
    (n : nat) (da : A) (db : B) (dc : C) :
  n < length l1 -> n < length l2 ->
  nth n (map2 f l1 l2) dc = f (nth n l1 da) (nth n l2 db).
Proof.
  revert l2 n; induction l1 as [|a t IH]; intros [|b t2] [|n]; simpl;
    intros H1 H2; try lia; auto.
  apply IH; lia.
Qed.

Lemma map2_map_map {A B C X : Type} (f : A -> B -> C) (g : X -> A)
    (h : X -> B) (l : list X) :
  map2 f (map g l) (map h l) = map (fun x => f (g x) (h x)) l.
Proof.
  induction l as [|x t IH]; simpl; [reflexivity | now rewrite IH].
Qed.

Lemma map2_map_r {A B C : Type} (f : A -> B -> C) (h : A -> B)
    (l : list A) :
  map2 f l (map h l) = map (fun x => f x (h x)) l.
Proof.
  induction l as [|x t IH]; simpl; [reflexivity | now rewrite IH].
Qed.

Lemma nth_map_in {A B : Type} (f : A -> B) (l : list A) (n : nat) (da : A)
    (db : B) :
  n < length l -> nth n (map f l) db = f (nth n l da).
Proof.
  intros H. rewrite (nth_indep _ db (f da)) by now rewrite length_map.
  apply map_nth.
Qed.

(** ** First extremum *)

Section Argmin.

Local Open Scope Q_scope.

Lemma argmin_from_spec (l : list Q) :
  forall (best : nat) (bv : Q) (i : nat),
    (argmin_from best bv i l = best /\
     forall j, (j < length l)%nat -> bv <= nth j l 0)
    \/
    (exists j, argmin_from best bv i l = (i + j)%nat /\
               (j < length l)%nat /\
               nth j l 0 < bv /\
               (forall j', (j' < length l)%nat -> nth j l 0 <= nth j' l 0) /\
               (forall j', (j' < j)%nat -> nth j l 0 < nth j' l 0)).
Proof.
  induction l as [|v t IH]; intros best bv i; simpl.
  - left. split; [reflexivity | intros j Hj; inversion Hj].
  - destruct (v ?= bv) eqn:E.
    + apply Qeq_alt in E.
      destruct (IH best bv (S i)) as [[Hm Hall] | (j & Hm & Hj & Hlt & Hmin & Hfirst)].
      * left. split; [exact Hm|].
        intros [|j] Hj; [lra | apply Hall; lia].
      * right. exists (S j). repeat split.
        -- rewrite Hm. lia.
        -- lia.
        -- exact Hlt.
        -- intros [|j'] Hj'; [lra | apply Hmin; lia].
        -- intros [|j'] Hj'; [lra | apply Hfirst; lia].
    + apply Qlt_alt in E. right.
      destruct (IH i v (S i)) as [[Hm Hall] | (j & Hm & Hj & Hlt & Hmin & Hfirst)].
      * exists 0%nat. repeat split.
        -- rewrite Hm. lia.
        -- lia.
        -- exact E.
        -- intros [|j'] Hj'; [lra | apply Hall; lia].
        -- intros j' Hj'. inversion Hj'.
      * exists (S j). repeat split.
        -- rewrite Hm. lia.
        -- lia.
        -- simpl. lra.
        -- intros [|j'] Hj'; [simpl; lra | apply Hmin; lia].
        -- intros [|j'] Hj'; [simpl; lra | apply Hfirst; lia].
    + apply Qgt_alt in E.
      destruct (IH best bv (S i)) as [[Hm Hall] | (j & Hm & Hj & Hlt & Hmin & Hfirst)].
      * left. split; [exact Hm|].
        intros [|j] Hj; [lra | apply Hall; lia].
      * right. exists (S j). repeat split.
        -- rewrite Hm. lia.
        -- lia.
        -- exact Hlt.
        -- intros [|j'] Hj'; [simpl; lra | apply Hmin; lia].
        -- intros [|j'] Hj'; [simpl; lra | apply Hfirst; lia].
Qed.

(** [argmin] returns the first index that holds the minimum. *)
Lemma argmin_first_min (l : list Q) :
  l <> [] ->
  (argmin l < length l)%nat /\
  (forall j, (j < length l)%nat -> nth (argmin l) l 0 <= nth j l 0) /\
  (forall j, (j < argmin l)%nat -> nth (argmin l) l 0 < nth j l 0).
Proof.
  destruct l as [|v t]; [congruence | intros _].
  unfold argmin.
  destruct (argmin_from_spec t 0%nat v 1%nat)
    as [[Hm Hall] | (j & Hm & Hj & Hlt & Hmin & Hfirst)]; rewrite Hm.
  - repeat split.
    + simpl. lia.
    + intros [|j] Hj; simpl in *; [lra | apply Hall; lia].
    + intros j Hj. inversion Hj.
  - change (1 + j)%nat with (S j). repeat split.
    + simpl. lia.
    + intros [|j'] Hj'; simpl in *; [lra | apply Hmin; lia].
    + intros [|j'] Hj'; simpl in *; [lra | apply Hfirst; lia].
Qed.

End Argmin.

(** ** Nearest-boundary selection *)

(** C4.  For stacked deltas (N x K) and stacked gradients (N x K x D), the
    distance of sample [n] to candidate [j] is [|delta| / (sum |grad| + 1e-8)],
    the sum running over the entries of that candidate's gradient; the
    challenger selected for the sample is the first index holding the least
    distance; and the gathered distance, delta and gradient are the ones at
    that index. *)
Theorem select_best_first_min (deltas : list (list Q))
    (grads : list (list sample)) (n : nat) :
  length grads = length deltas ->
  n < length deltas ->
  length (nth n grads []) = length (nth n deltas []) ->
  nth n deltas [] <> [] ->
  let sel := select_best deltas grads in
  let dist := nth n (sel_all sel) [] in
  let b := nth n (sel_best sel) 0 in
  length dist = length (nth n deltas []) /\
  (forall j, j < length dist ->
     nth j dist 0%Q =
     (Qabs (nth j (nth n deltas []) 0)
      / (Qsum (map Qabs (nth j (nth n grads []) [])) + (1 # 100000000)))%Q) /\
  b < length dist /\
  (forall j, j < length dist -> (nth b dist 0 <= nth j dist 0)%Q) /\
  (forall j, j < b -> (nth b dist 0 < nth j dist 0)%Q) /\
  nth n (sel_distances sel) 0%Q = nth b dist 0%Q /\
  nth n (sel_deltas sel) 0%Q = nth b (nth n deltas []) 0%Q /\
  nth n (sel_grads sel) [] = nth b (nth n grads []) [].
Proof.
  intros Hlen Hn Hrow Hne sel dist b.
  assert (Hng : n < length grads) by lia.
  assert (Hdist : dist = map2 (fun dl g => (Qabs dl / (Qsum (map Qabs g) + eps8))%Q)
                              (nth n deltas []) (nth n grads [])).
  { unfold dist, sel, select_best, get_distances; simpl.
    apply map2_nth; assumption. }
  assert (Hdl : length dist = length (nth n deltas [])).
  { rewrite Hdist, map2_length. lia. }
  assert (Hall : length (sel_all sel) = length deltas).
  { unfold sel, select_best, get_distances; simpl. rewrite map2_length. lia. }
  assert (Hb : b = argmin dist).
  { unfold b, dist. change (sel_best sel) with (map argmin (sel_all sel)).
    apply (nth_map_in argmin). rewrite Hall. exact Hn. }
  assert (Hbest : length (sel_best sel) = length deltas).
  { unfold sel, select_best; simpl. rewrite length_map. exact Hall. }
  assert (Hnil : dist <> []).
  { intros E. rewrite E in Hdl. simpl in Hdl.
    destruct (nth n deltas []); [congruence | discriminate]. }
  destruct (argmin_first_min dist Hnil) as (Hlt & Hmin & Hfirst).
  rewrite <- Hb in Hlt, Hmin, Hfirst.
  split; [exact Hdl|].
  split.
  { intros j Hj. rewrite Hdist.
    rewrite (map2_nth _ _ _ _ 0%Q []) by lia. reflexivity. }
  split; [exact Hlt|].
  split; [exact Hmin|].
  split; [exact Hfirst|].
  unfold sel, select_best, take_best; simpl.
  fold sel. change (get_distances deltas grads) with (sel_all sel).
  change (map argmin (sel_all sel)) with (sel_best sel).
  split; [|split].
  - rewrite (map2_nth _ _ _ _ [] 0) by lia. reflexivity.
  - rewrite (map2_nth _ _ _ _ [] 0) by lia. reflexivity.
  - rewrite (map2_nth _ _ _ _ [] 0) by lia. reflexivity.
Qed.

(** ** The driver: how an iteration unfolds *)

Section Driver.

Variable net : Classifier.

Lemma get_grads_inv (x : Tensor) (k : nat) (classes : ClassTable)
    (d : Diff) (x' : Tensor) :
  get_grads net x k classes = Ok (d, x') ->
  exists i0 ik,
    column classes 0 = Ok i0 /\
    column classes k = Ok ik /\
    logits d = predict net (data x) /\
    d_dx (sum_deltas d) = grad_sum_deltas net (data x) i0 ik /\
    grads d = match grad x with
              | None => d_dx (sum_deltas d)
              | Some b => t_add b (d_dx (sum_deltas d))
              end /\
    data x' = data x /\
    grad x' = Some (zeros_like (grads d)).
Proof.
  unfold get_grads, get_deltas_logits, rbind.
  destruct (column classes 0) as [i0|e]; [|discriminate].
  destruct (column classes k) as [ik|e]; [|discriminate].
  intros H. injection H as <- <-. exists i0, ik. simpl.
  repeat split; reflexivity.
Qed.

Lemma get_grads_ok (x : Tensor) (k : nat) (classes : ClassTable) :
  0 < cols classes -> k < cols classes ->
  exists d x', get_grads net x k classes = Ok (d, x').
Proof.
  intros H0 Hk. unfold get_grads, get_deltas_logits, column, rbind.
  apply Nat.ltb_lt in H0, Hk. rewrite H0, Hk. eauto.
Qed.

Section Body.

Variable a : Attack.
Variable nc : Z.
Variable classes : ClassTable.
Variable x0 : batch.
Variable y : list Z.

Definition first_call (st : LoopState) : CallEvent :=
  {| ev_k := 1; ev_before := x_cur st;
     ev_result := get_grads net (x_cur st) 1 classes |}.

Definition all_adv (st : LoopState) : bool :=
  forallb (fun b => b) (is_adv (predict net (data (x_cur st))) y).

Lemma iteration_eq (st : LoopState) :
  iteration net a nc classes x0 y st =
  match get_grads net (x_cur st) 1 classes with
  | Raise e => ([first_call st], Raise e)
  | Ok d1 =>
      let adv := is_adv (logits (fst d1)) y in
      if forallb (fun b => b) adv
      then ([first_call st],
            Ok (Break {| x_cur := snd d1; p_total := p_total st |}))
      else
        match get_grads_for net (snd d1) (range2 nc) classes with
        | (l, Raise e) => (first_call st :: l, Raise e)
        | (l, Ok more) =>
            if negb (Z.of_nat (length (fst d1 :: fst more)) =? nc - 1)%Z
            then (first_call st :: l, Raise AssertionError)
            else (first_call st :: l,
                  Ok (Continue
                        (advance a x0 adv
                           (stack_deltas (length x0) (fst d1 :: fst more))
                           (stack_grads (length x0) (fst d1 :: fst more))
                           (snd more) (p_total st))))
        end
  end.
Proof.
  unfold iteration, logged_get_grads, first_call, run_bind.
  destruct (get_grads net (x_cur st) 1 classes) as [d1|e]; [|reflexivity].
  cbv zeta.
  destruct (forallb (fun b => b) (is_adv (logits (fst d1)) y));
    [reflexivity|].
  destruct (get_grads_for net (snd d1) (range2 nc) classes) as [l [more|e]];
    [|reflexivity].
  destruct (negb (Z.of_nat (length (fst d1 :: fst more)) =? nc - 1)%Z);
    simpl; rewrite app_nil_r; reflexivity.
Qed.

(** When every sample is adversarial at the top of an iteration, the
    only call made is the one for [k = 1] and the loop does not go on. *)
Lemma iteration_all_adv (st : LoopState) :
  all_adv st = true ->
  exists out,
    iteration net a nc classes x0 y st = ([first_call st], out) /\
    forall st', out <> Ok (Continue st').
Proof.
  intros Hadv. rewrite iteration_eq.
  destruct (get_grads net (x_cur st) 1 classes) as [[d1 x1]|e] eqn:E.
  - destruct (get_grads_inv _ _ _ _ _ E) as (i0 & ik & _ & _ & Hl & _).
    cbv zeta. simpl fst. rewrite Hl. unfold all_adv in Hadv.
    rewrite Hadv. eexists; split; [reflexivity | discriminate].
  - eexists; split; [reflexivity | discriminate].
Qed.

Lemma loop_length (n : nat) :
  forall st, length (fst (loop net a nc classes x0 y n st)) <= n.
Proof.
  induction n as [|n IH]; intros st; simpl; [lia|].
  destruct (iteration net a nc classes x0 y st) as [calls [[st'|st']|e]];
    simpl; try lia.
  specialize (IH st').
  destruct (loop net a nc classes x0 y n st') as [tr r]. simpl in *. lia.
Qed.

Lemma loop_early_exit (n : nat) :
  forall st i rec,
    nth_error (fst (loop net a nc classes x0 y n st)) i = Some rec ->
    all_adv (it_top rec) = true ->
    map ev_k (it_calls rec) = [1] /\
    length (fst (loop net a nc classes x0 y n st)) = S i.
Proof.
  induction n as [|n IH]; intros st i rec; simpl.
  - destruct i; discriminate.
  - destruct (iteration net a nc classes x0 y st) as [calls out] eqn:E.
    assert (Hhere : all_adv st = true ->
                    calls = [first_call st] /\
                    forall st', out <> Ok (Continue st')).
    { intros Hadv. destruct (iteration_all_adv st Hadv) as (o & Ho & Hn).
      rewrite E in Ho. injection Ho as -> ->. auto. }
    destruct out as [[st'|st']|e].
    + specialize (IH st').
      destruct (loop net a nc classes x0 y n st') as [tr r].
      simpl in *. destruct i as [|i]; simpl.
      * intros H Hadv. injection H as <-. simpl in Hadv.
        destruct (Hhere Hadv) as [_ Hn]. now elim (Hn st').
      * intros H Hadv. destruct (IH i rec H Hadv) as [Hc Hl].
        split; [exact Hc | now rewrite Hl].
    + simpl. destruct i as [|[|i]]; simpl; try discriminate.
      intros H Hadv. injection H as <-. simpl in *.
      destruct (Hhere Hadv) as [-> _]. auto.
    + simpl. destruct i as [|[|i]]; simpl; try discriminate.
      intros H Hadv. injection H as <-. simpl in *.
      destruct (Hhere Hadv) as [-> _]. auto.
Qed.

End Body.

Lemma init_classes_nb_iter (a a' : Attack) (rng : nat -> Z) (x : batch)
    (classes : ClassTable) :
  init_classes net a rng x = Ok (a', classes) ->
  nb_iter a' = nb_iter a /\ eps a' = eps a /\
  random_class a' = random_class a /\ overshoot a' = overshoot a /\
  clip_min a' = clip_min a /\ clip_max a' = clip_max a /\
  cols classes = n_out net /\
  rows classes = map (fun row => flip (argsort row)) (predict net x).
Proof.
  unfold init_classes, rbind.
  destruct (random_class a) eqn:Hr.
  - destruct (random_ rng (length x) (num_classes a)); [|discriminate].
    destruct (column _ 0); [|discriminate].
    destruct (gather _ _); [|discriminate].
    intros H; injection H as <- <-. simpl. rewrite Hr.
    repeat split; reflexivity.
  - destruct (num_classes a); intros H; injection H as <- <-; simpl;
      rewrite Hr; repeat split; reflexivity.
Qed.

(** C8.  The loop runs at most [nb_iter] iterations (none when [nb_iter]
    is not positive); and, for labels of the batch's length, an iteration
    that finds every sample adversarial at its top makes the single
    gradient call for [k = 1], no call for a challenger [k >= 2], and is
    the last iteration of the run. *)
Theorem loop_bounded_early_exit (a : Attack) (rng : nat -> Z) (x : batch)
    (y : list Z) :
  let run := perturb_run net a rng x y in
  (Z.of_nat (length (trace run)) <= Z.max 0 (nb_iter a))%Z /\
  (length y = length x ->
   forall i rec,
     nth_error (trace run) i = Some rec ->
     all_adv y (it_top rec) = true ->
     map ev_k (it_calls rec) = [1] /\ length (trace run) = S i).
Proof.
  unfold perturb_run.
  destruct (init_classes net a rng x) as [[a' classes]|e] eqn:E.
  - destruct (init_classes_nb_iter _ _ _ _ _ E) as (Hnb & _).
    pose proof (loop_length a' (the_num_classes a') classes x y
                  (Z.to_nat (nb_iter a'))
                  {| x_cur := fresh x; p_total := zeros_like x |}) as Hlen.
    pose proof (loop_early_exit a' (the_num_classes a') classes x y
                  (Z.to_nat (nb_iter a'))
                  {| x_cur := fresh x; p_total := zeros_like x |}) as Hexit.
    destruct (loop net a' (the_num_classes a') classes x y
                (Z.to_nat (nb_iter a'))
                {| x_cur := fresh x; p_total := zeros_like x |}) as [tr r].
    simpl in *. split; [rewrite <- Hnb; lia | intros _; exact Hexit].
  - simpl. split; [lia|]. intros _ [|i] rec H; discriminate.
Qed.

End Driver.

(** ** Shapes and entries of batches *)

Definition shape (x : list (list Q)) : list nat := map (@length Q) x.

Definition entry (x : list (list Q)) (r d : nat) : Q :=
  nth d (nth r x []) 0%Q.

Lemma shape_length (x : list (list Q)) : length (shape x) = length x.
Proof. apply length_map. Qed.

Lemma shape_eq_length (a b : list (list Q)) :
  shape a = shape b -> length a = length b.
Proof. intros H. rewrite <- (shape_length a), H. apply shape_length. Qed.

Lemma shape_row (a b : list (list Q)) (r : nat) :
  shape a = shape b -> length (nth r a []) = length (nth r b []).
Proof.
  revert b r; induction a as [|ra ta IH]; intros [|rb tb] r H; simpl in *;
    try discriminate.
  - now destruct r.
  - injection H as Hr Ht. destruct r; [exact Hr | now apply IH].
Qed.

Lemma shape_zeros_like (x : list (list Q)) : shape (zeros_like x) = shape x.
Proof.
  unfold shape, zeros_like. rewrite map_map. apply map_ext.
  intros row. apply length_map.
Qed.

Lemma zeros_like_shape (a b : list (list Q)) :
  shape a = shape b -> zeros_like a = zeros_like b.
Proof.
  revert b; induction a as [|ra ta IH]; intros [|rb tb] H; simpl in *;
    try discriminate; [reflexivity|].
  injection H as Hr Ht. f_equal; [|now apply IH].
  clear -Hr. revert rb Hr. induction ra as [|v t IHr]; intros [|w u] H;
    simpl in *; try discriminate; [reflexivity|].
  f_equal. apply IHr. now injection H.
Qed.

Lemma zeros_like_idem (x : list (list Q)) :
  zeros_like (zeros_like x) = zeros_like x.
Proof. apply zeros_like_shape, shape_zeros_like. Qed.

Lemma shape_map_map (f : Q -> Q) (x : list (list Q)) :
  shape (map (map f) x) = shape x.
Proof.
  unfold shape. rewrite map_map. apply map_ext. intros row. apply length_map.
Qed.

Lemma shape_clamp_ (x : list (list Q)) (lo hi : Q) :
  shape (clamp_ x lo hi) = shape x.
Proof. apply shape_map_map. Qed.

Lemma shape_t_scale (c : Q) (x : list (list Q)) : shape (t_scale c x) = shape x.
Proof. apply shape_map_map. Qed.

Lemma shape_t_add (a b : list (list Q)) :
  shape a = shape b -> shape (t_add a b) = shape a.
Proof.
  unfold t_add.
  revert b; induction a as [|ra ta IH]; intros [|rb tb] H; simpl in *;
    try discriminate; [reflexivity|].
  injection H as Hr Ht. f_equal; [|now apply IH].
  rewrite map2_length, Hr. apply Nat.min_id.
Qed.

Lemma shape_where_ (c : list bool) (a b : list (list Q)) :
  length c = length a -> shape a = shape b -> shape (where_ c a b) = shape a.
Proof.
  revert a b; induction c as [|v c IH]; intros [|ra ta] [|rb tb] Hc H;
    simpl in *; try discriminate; [reflexivity|].
  injection H as Hr Ht. injection Hc as Hc.
  f_equal; [now destruct v | now apply IH].
Qed.

Lemma Qplus_0_l_eq (q : Q) : (0 + q)%Q = q.
Proof.
  destruct q as [n d]. unfold Qplus. simpl. f_equal. lia.
Qed.

Lemma t_add_zeros (z g : list (list Q)) :
  shape z = shape g -> t_add (zeros_like z) g = g.
Proof.
  unfold t_add, zeros_like.
  revert g; induction z as [|rz tz IH]; intros [|rg tg] H; simpl in *;
    try discriminate; [reflexivity|].
  injection H as Hr Ht. f_equal; [|now apply IH].
  clear -Hr. revert rg Hr. induction rz as [|v t IHr]; intros [|w u] H;
    simpl in *; try discriminate; [reflexivity|].
  f_equal; [apply Qplus_0_l_eq | apply IHr; now injection H].
Qed.

Lemma entry_map_map (f : Q -> Q) (x : list (list Q)) (r d : nat) :
  r < length x -> d < length (nth r x []) ->
  entry (map (map f) x) r d = f (entry x r d).
Proof.
  intros Hr Hd. unfold entry.
  rewrite (nth_map_in (map f) x r [] []) by exact Hr.
  apply nth_map_in. exact Hd.
Qed.

Lemma entry_t_add (a b : list (list Q)) (r d : nat) :
  shape a = shape b -> r < length a -> d < length (nth r a []) ->
  entry (t_add a b) r d = (entry a r d + entry b r d)%Q.
Proof.
  intros Hs Hr Hd. unfold entry, t_add.
  pose proof (shape_eq_length _ _ Hs) as Hl.
  pose proof (shape_row _ _ r Hs) as Hrow.
  rewrite (map2_nth _ a b r [] [] []) by lia.
  apply map2_nth; lia.
Qed.

Lemma nth_where_ (c : list bool) (a b : list (list Q)) (r : nat) :
  r < length c -> r < length a -> r < length b ->
  nth r (where_ c a b) [] = if nth r c false then nth r a [] else nth r b [].
Proof.
  revert a b r; induction c as [|v c IH]; intros [|ra ta] [|rb tb] [|r];
    simpl; intros H1 H2 H3; try lia; auto.
  apply IH; lia.
Qed.

Lemma shape_as_seq (x : list (list Q)) :
  shape x = map (fun r => length (nth r x [])) (seq 0 (length x)).
Proof.
  unfold shape. apply nth_ext with (d := 0) (d' := 0).
  - now rewrite !length_map, length_seq.
  - intros n Hn. rewrite length_map in Hn.
    rewrite (nth_map_in (@length Q) x n []) by exact Hn.
    rewrite (nth_map_in _ (seq 0 (length x)) n 0)
      by now rewrite length_seq.
    now rewrite seq_nth.
Qed.

(** ** Gradient extraction on a clean buffer *)

(** A buffer is clean when it holds no gradient: never written, or zeroed. *)
Definition clean (x : Tensor) : Prop :=
  grad x = None \/ grad x = Some (zeros_like (data x)).

Section Invariants.

Variable net : Classifier.

(** What C10 asks of one [get_grads] call: it starts from a clean buffer,
    returns exactly the gradient of the summed deltas at the point it was
    given, and leaves the buffer zeroed. *)
Definition call_good (classes : ClassTable) (ev : CallEvent) : Prop :=
  clean (ev_before ev) /\
  forall d x', ev_result ev = Ok (d, x') ->
    (exists i0 ik,
        column classes 0 = Ok i0 /\
        column classes (ev_k ev) = Ok ik /\
        grads d = grad_sum_deltas net (data (ev_before ev)) i0 ik) /\
    data x' = data (ev_before ev) /\
    grad x' = Some (zeros_like (data x')).

Lemma shape_grad_sum_deltas (x : list (list Q)) (i0 ik : list nat) :
  length i0 = length x -> length ik = length x ->
  shape (grad_sum_deltas net x i0 ik) = shape x.
Proof.
  intros H0 Hk. unfold grad_sum_deltas.
  assert (Hc : length (combine i0 ik) = length x)
    by (rewrite length_combine; lia).
  revert Hc. generalize (combine i0 ik). clear.
  induction x as [|s t IH]; intros [|c l] H; simpl in *; try discriminate;
    [reflexivity|].
  f_equal; [now rewrite length_map, length_seq | apply IH; lia].
Qed.

Lemma column_length (classes : ClassTable) (k : nat) (l : list nat) :
  column classes k = Ok l -> length l = length (rows classes).
Proof.
  unfold column. destruct (k <? cols classes); [|discriminate].
  intros H; injection H as <-. apply length_map.
Qed.

Lemma get_grads_clean (x : Tensor) (k : nat) (classes : ClassTable)
    (d : Diff) (x' : Tensor) :
  length (rows classes) = length (data x) ->
  clean x ->
  get_grads net x k classes = Ok (d, x') ->
  (exists i0 ik,
      column classes 0 = Ok i0 /\ column classes k = Ok ik /\
      grads d = grad_sum_deltas net (data x) i0 ik) /\
  shape (grads d) = shape (data x) /\
  logits d = predict net (data x) /\
  data x' = data x /\
  grad x' = Some (zeros_like (data x')).
Proof.
  intros Hrows Hclean H.
  destruct (get_grads_inv net _ _ _ _ _ H)
    as (i0 & ik & H0 & Hk & Hlog & Hd & Hg & Hdata & Hbuf).
  pose proof (column_length _ _ _ H0) as L0.
  pose proof (column_length _ _ _ Hk) as Lk.
  assert (Hsh : shape (grad_sum_deltas net (data x) i0 ik) = shape (data x))
    by (apply shape_grad_sum_deltas; lia).
  assert (Hgr : grads d = grad_sum_deltas net (data x) i0 ik).
  { rewrite Hg, Hd. destruct Hclean as [-> | ->]; [reflexivity|].
    apply t_add_zeros. now rewrite Hsh. }
  split; [exists i0, ik; auto|].
  split; [now rewrite Hgr|].
  split; [exact Hlog|].
  split; [exact Hdata|].
  rewrite Hbuf, Hdata. f_equal. apply zeros_like_shape.
  now rewrite Hgr.
Qed.

Lemma logged_call_good (x : Tensor) (k : nat) (classes : ClassTable) :
  length (rows classes) = length (data x) ->
  clean x ->
  call_good classes
    {| ev_k := k; ev_before := x; ev_result := get_grads net x k classes |}.
Proof.
  intros Hrows Hclean. split; [exact Hclean|]. simpl. intros d x' H.
  destruct (get_grads_clean _ _ _ _ _ Hrows Hclean H)
    as (He & _ & _ & Hdata & Hbuf). auto.
Qed.

Lemma get_grads_for_good (classes : ClassTable) (ks : list nat) :
  forall (x : Tensor) l r,
    length (rows classes) = length (data x) ->
    clean x ->
    get_grads_for net x ks classes = (l, r) ->
    Forall (call_good classes) l /\
    map ev_k l = firstn (length l) ks /\
    forall ds x', r = Ok (ds, x') ->
      Forall (fun d => shape (grads d) = shape (data x)) ds /\
      length ds = length ks /\
      data x' = data x /\ clean x'.
Proof.
  induction ks as [|k ks IH]; intros x l r Hrows Hclean; simpl.
  - unfold run_ret. intros H; injection H as <- <-.
    split; [constructor|]. split; [reflexivity|].
    intros ds x' H; injection H as <- <-. auto.
  - unfold run_bind, logged_get_grads.
    destruct (get_grads net x k classes) as [[d x1]|e] eqn:E.
    + destruct (get_grads_clean _ _ _ _ _ Hrows Hclean E)
        as (_ & Hsh & _ & Hdata & Hbuf).
      assert (Hrows1 : length (rows classes) = length (data x1))
        by now rewrite Hdata.
      assert (Hclean1 : clean x1) by (right; exact Hbuf).
      simpl snd.
      destruct (get_grads_for net x1 ks classes) as [l1 r1] eqn:E1.
      destruct (IH x1 l1 r1 Hrows1 Hclean1 E1) as (Hl1 & Hk1 & Hr1).
      destruct r1 as [[ds x2]|e1]; simpl.
      * intros H; injection H as <- <-. split.
        { constructor; [|rewrite app_nil_r; exact Hl1].
          rewrite <- E. now apply logged_call_good. }
        split.
        { simpl. rewrite app_nil_r. now rewrite Hk1. }
        intros ds' x' H; injection H as <- <-.
        destruct (Hr1 ds x2 eq_refl) as (Hf & Hlen & Hd2 & Hc2).
        split; [constructor; [exact Hsh | now rewrite <- Hdata]|].
        split; [simpl; now rewrite Hlen|].
        split; [now rewrite Hd2 | exact Hc2].
      * intros H; injection H as <- <-. split.
        { constructor; [|exact Hl1].
          rewrite <- E. now apply logged_call_good. }
        split; [simpl; now rewrite Hk1 | discriminate].
    + intros H; injection H as <- <-. split.
      { constructor; [|constructor].
        rewrite <- E. now apply logged_call_good. }
      split; [reflexivity | discriminate].
Qed.

End Invariants.

(** ** One iteration keeps the loop state well shaped *)

Lemma argmin_map2_lt {A B : Type} (f : A -> B -> Q) (l1 : list A)
    (l2 : list B) :
  length l1 = length l2 -> l1 <> [] ->
  argmin (map2 f l1 l2) < length l1.
Proof.
  intros Hl Hne.
  assert (Hm : length (map2 f l1 l2) = length l1)
    by (rewrite map2_length; lia).
  rewrite <- Hm. apply argmin_first_min.
  intros E. rewrite E in Hm. destruct l1; [congruence | discriminate].
Qed.

Lemma shape_p_step (x0 : list (list Q)) (diffs : list Diff) :
  diffs <> [] ->
  Forall (fun d => shape (grads d) = shape x0) diffs ->
  let sel := select_best (stack_deltas (length x0) diffs)
                         (stack_grads (length x0) diffs) in
  shape (get_perturbations (map (fun d => (d + eps4)%Q) (sel_distances sel))
                           (sel_grads sel)) = shape x0.
Proof.
  intros Hne Hall.
  unfold select_best, get_distances, take_best, stack_deltas, stack_grads,
    get_perturbations.
  cbn [sel_distances sel_grads].
  rewrite !map2_map_map, !map_map, !map2_map_map, map_map, map2_map_map.
  unfold shape at 1. rewrite map_map, shape_as_seq.
  apply map_ext_in. intros r Hr. apply in_seq in Hr.
  rewrite length_map.
  set (b := argmin _).
  assert (Hb : b < length diffs).
  { unfold b.
    pose proof (argmin_map2_lt
                  (fun dl g => (Qabs dl / (Qsum (map Qabs g) + eps8))%Q)
                  (map (fun d => nth r (deltas d) 0%Q) diffs)
                  (map (fun d => nth r (grads d) []) diffs)) as H.
    rewrite !length_map in H. apply H; [reflexivity|].
    destruct diffs; [congruence | discriminate]. }
  destruct diffs as [|d0 ds]; [congruence|].
  rewrite (nth_map_in (fun d => nth r (grads d) []) (d0 :: ds) b d0 [])
    by exact Hb.
  apply shape_row.
  rewrite Forall_forall in Hall. apply Hall. apply nth_In. exact Hb.
Qed.

(** The loop state is well shaped when the working point and [p_total] have
    the shape of the input and the working point is a fresh tensor. *)
Definition wf_state (x0 : list (list Q)) (st : LoopState) : Prop :=
  shape (data (x_cur st)) = shape x0 /\
  shape (p_total st) = shape x0 /\
  grad (x_cur st) = None.

Section LoopInvariant.

Variable net : Classifier.
Variable a : Attack.
Variable nc : Z.
Variable classes : ClassTable.
Variable x0 : list (list Q).
Variable y : list Z.

Hypothesis Hrows : length (rows classes) = length x0.
Hypothesis Hy : length y = length x0.

Lemma is_adv_length (x : list (list Q)) :
  length x = length x0 -> length (is_adv (predict net x) y) = length x.
Proof.
  intros H. unfold is_adv, predict. rewrite map2_length, length_map. lia.
Qed.

(** What one iteration does to a well-shaped state. *)
Lemma iteration_spec (st : LoopState) calls out :
  wf_state x0 st ->
  iteration net a nc classes x0 y st = (calls, out) ->
  Forall (call_good net classes) calls /\
  match out with
  | Ok (Continue st') =>
      wf_state x0 st' /\
      all_adv net y st = false /\
      exists praw,
        shape praw = shape x0 /\
        p_total st' = clamp_ praw (- eps a) (eps a) /\
        data (x_cur st') =
        clamp_ (where_ (is_adv (predict net (data (x_cur st))) y)
                       (data (x_cur st))
                       (t_add x0 (t_scale (1 + overshoot a) (p_total st'))))
               (clip_min a) (clip_max a)
  | Ok (Break st') =>
      data (x_cur st') = data (x_cur st) /\
      p_total st' = p_total st /\
      all_adv net y st = true
  | Raise _ => True
  end.
Proof.
  intros (Hx & Hp & Hg) H. rewrite iteration_eq in H.
  assert (Hlen : length (data (x_cur st)) = length x0)
    by now apply shape_eq_length.
  assert (Hrows' : length (rows classes) = length (data (x_cur st)))
    by lia.
  assert (Hclean : clean (x_cur st)) by (left; exact Hg).
  pose proof (logged_call_good net (x_cur st) 1 classes Hrows' Hclean)
    as Hev.
  fold (first_call net classes st) in Hev.
  destruct (get_grads net (x_cur st) 1 classes) as [[d1 x1]|e] eqn:E.
  2:{ injection H as <- <-. split; [constructor; [exact Hev | constructor] | exact I]. }
  destruct (get_grads_clean net _ _ _ _ _ Hrows' Hclean E)
    as (_ & Hsh1 & Hlog & Hdata1 & Hbuf1).
  cbv zeta in H. simpl fst in H. simpl snd in H. rewrite Hlog in H.
  fold (all_adv net y st) in H.
  destruct (all_adv net y st) eqn:Hadv.
  { injection H as <- <-. split; [constructor; [exact Hev | constructor]|].
    simpl. auto. }
  assert (Hrows1 : length (rows classes) = length (data x1))
    by now rewrite Hdata1.
  assert (Hclean1 : clean x1) by (right; exact Hbuf1).
  destruct (get_grads_for net x1 (range2 nc) classes) as [l r] eqn:E2.
  destruct (get_grads_for_good net classes _ _ _ _ Hrows1 Hclean1 E2)
    as (Hl & _ & Hr).
  destruct r as [[ds x2]|e].
  2:{ injection H as <- <-. split; [constructor; assumption | exact I]. }
  destruct (Hr ds x2 eq_refl) as (Hds & _ & Hdata2 & _).
  simpl fst in H. simpl snd in H.
  destruct (negb (Z.of_nat (length (d1 :: ds)) =? nc - 1)%Z).
  { injection H as <- <-. split; [constructor; assumption | exact I]. }
  injection H as <- <-. split; [constructor; assumption|].
  assert (Hdiffs : Forall (fun d => shape (grads d) = shape x0) (d1 :: ds)).
  { constructor; [now rewrite Hsh1|].
    eapply Forall_impl; [|exact Hds]. intros d Hd. simpl in Hd.
    now rewrite Hd, Hdata1. }
  pose proof (shape_p_step x0 (d1 :: ds) ltac:(discriminate) Hdiffs) as Hstep.
  cbv zeta in Hstep.
  unfold advance. cbv zeta. cbn [x_cur p_total data].
  set (p_step := get_perturbations _ _) in *.
  set (praw := t_add (p_total st) p_step).
  assert (Hpraw : shape praw = shape x0).
  { unfold praw. rewrite shape_t_add; [exact Hp | now rewrite Hp, Hstep]. }
  set (p' := clamp_ praw (- eps a) (eps a)).
  assert (Hp' : shape p' = shape x0)
    by (unfold p'; now rewrite shape_clamp_).
  assert (Hcand : shape (t_add x0 (t_scale (1 + overshoot a) p')) = shape x0).
  { apply shape_t_add. now rewrite shape_t_scale, Hp'. }
  split; [|split; [reflexivity|]].
  - split; [|split; [exact Hp' | reflexivity]].
    cbn [x_cur data fresh grad].
    rewrite shape_clamp_, Hdata2, Hdata1, shape_where_.
    + exact Hx.
    + now apply is_adv_length.
    + now rewrite Hcand.
  - exists praw. split; [exact Hpraw|]. split; [reflexivity|].
    now rewrite Hdata2, Hdata1.
Qed.

End LoopInvariant.

(** ** Induction over the loop *)

Section LoopInduction.

Variable net : Classifier.
Variable a : Attack.
Variable nc : Z.
Variable classes : ClassTable.
Variable x0 : list (list Q).
Variable y : list Z.

Local Abbreviation iter := (iteration net a nc classes x0 y).
Local Abbreviation run_loop := (loop net a nc classes x0 y).

(** A record of the trace is the iteration run from its top state. *)
Definition faithful (rec : IterRecord) : Prop :=
  iter (it_top rec) = (it_calls rec, it_out rec).

Lemma loop_inv (P : LoopState -> Prop) :
  (forall st calls st',
      P st -> iter st = (calls, Ok (Continue st')) -> P st') ->
  forall n st,
    P st ->
    Forall (fun rec => P (it_top rec) /\ faithful rec) (fst (run_loop n st))
    /\
    forall st', snd (run_loop n st) = Ok st' ->
      P st' \/
      exists rec, In rec (fst (run_loop n st)) /\
                  it_out rec = Ok (Break st').
Proof.
  intros Hstep. induction n as [|n IH]; intros st HP; simpl.
  - split; [constructor|]. intros st' H; injection H as <-. now left.
  - destruct (iter st) as [calls out] eqn:E.
    assert (Hrec : P st /\
                   faithful {| it_top := st; it_calls := calls;
                               it_out := out |})
      by (split; [exact HP | exact E]).
    destruct out as [[st1|st1]|e].
    + destruct (IH st1 (Hstep _ _ _ HP E)) as [Hall Hfin].
      destruct (run_loop n st1) as [tr r]. simpl in *.
      split; [constructor; assumption|].
      intros st' H. destruct (Hfin st' H) as [Hl | (rec & Hin & Ho)];
        [now left | right; exists rec; auto].
    + simpl. split; [constructor; [assumption | constructor]|].
      intros st' H; injection H as <-. right.
      eexists; split; [left; reflexivity | reflexivity].
    + simpl. split; [constructor; [assumption | constructor]|].
      discriminate.
Qed.

(** The trace from its [i]-th record on is the loop run from that
    record's top state. *)
Lemma loop_suffix :
  forall n st i rec,
    nth_error (fst (run_loop n st)) i = Some rec ->
    exists m,
      run_loop m (it_top rec)
      = (skipn i (fst (run_loop n st)), snd (run_loop n st)).
Proof.
  induction n as [|n IH]; intros st i rec; simpl.
  - destruct i; discriminate.
  - destruct (iter st) as [calls out] eqn:E.
    destruct out as [[st1|st1]|e].
    + specialize (IH st1).
      destruct (run_loop n st1) as [tr r] eqn:E1. simpl in *.
      destruct i as [|i]; simpl.
      * intros H; injection H as <-. exists (S n). simpl.
        now rewrite E, E1.
      * intros H. exact (IH i rec H).
    + simpl. destruct i as [|[|i]]; simpl; try discriminate.
      intros H; injection H as <-. exists 1. simpl. now rewrite E.
    + simpl. destruct i as [|[|i]]; simpl; try discriminate.
      intros H; injection H as <-. exists 1. simpl. now rewrite E.
Qed.

(** Every state after the first is the result of a [clamp_]. *)
Lemma continue_clamped (st : LoopState) calls st' :
  iter st = (calls, Ok (Continue st')) ->
  (exists z, data (x_cur st') = clamp_ z (clip_min a) (clip_max a)) /\
  (exists praw, p_total st' = clamp_ praw (- eps a) (eps a)).
Proof.
  rewrite iteration_eq.
  destruct (get_grads net (x_cur st) 1 classes) as [d1|e]; [|discriminate].
  cbv zeta.
  destruct (forallb _ _); [discriminate|].
  destruct (get_grads_for _ _ _ _) as [l [more|e]]; [|discriminate].
  destruct (negb _); [discriminate|].
  intros H; injection H as _ <-. unfold advance. cbv zeta. simpl.
  split; eexists; reflexivity.
Qed.

Lemma break_same (st : LoopState) calls st' :
  iter st = (calls, Ok (Break st')) ->
  data (x_cur st') = data (x_cur st) /\ p_total st' = p_total st.
Proof.
  rewrite iteration_eq.
  destruct (get_grads net (x_cur st) 1 classes) as [[d1 x1]|e] eqn:E;
    [|discriminate].
  destruct (get_grads_inv net _ _ _ _ _ E)
    as (i0 & ik & _ & _ & _ & _ & _ & Hd & _).
  cbv zeta.
  destruct (forallb _ _).
  - intros H; injection H as _ <-. simpl. auto.
  - destruct (get_grads_for _ _ _ _) as [l [more|e]]; [|discriminate].
    destruct (negb _); discriminate.
Qed.

Lemma loop_later_clamped :
  forall n st i rec,
    nth_error (fst (run_loop n st)) (S i) = Some rec ->
    exists z, data (x_cur (it_top rec)) = clamp_ z (clip_min a) (clip_max a).
Proof.
  intros [|n] st i rec; simpl; [discriminate|].
  destruct (iter st) as [calls out] eqn:E.
  destruct out as [[st1|st1]|e]; simpl;
    try (destruct i; discriminate).
  pose proof (loop_inv
    (fun s => exists z, data (x_cur s) = clamp_ z (clip_min a) (clip_max a)))
    as Hinv.
  destruct (Hinv (fun s c s' _ H => proj1 (continue_clamped s c s' H))
                 n st1 (proj1 (continue_clamped _ _ _ E))) as [Hall _].
  destruct (run_loop n st1) as [tr r]. simpl in *.
  intros H. apply nth_error_In in H.
  rewrite Forall_forall in Hall. exact (proj1 (Hall rec H)).
Qed.

End LoopInduction.

(** ** Clamping *)

Section Clamp.

Local Open Scope Q_scope.

Lemma clamp_cases (lo hi v : Q) :
  (clamp lo hi v = v /\ lo <= v <= hi) \/
  (clamp lo hi v = lo /\ v < lo /\ lo <= hi) \/
  (clamp lo hi v = hi /\ (hi < v \/ hi < lo)).
Proof.
  unfold clamp, Qmin, Qmax, GenericMinMax.gmin, GenericMinMax.gmax.
  destruct (Qcompare_spec v lo) as [E1|E1|E1];
    match goal with
    | |- context [(?m ?= hi)] => destruct (Qcompare_spec m hi) as [E2|E2|E2]
    end;
    first [ left; split; [reflexivity | lra]
          | right; left; split; [reflexivity | lra]
          | right; right; split; [reflexivity | lra] ].
Qed.

Lemma clamp_in_range (lo hi v : Q) :
  lo <= v <= hi -> clamp lo hi v = v.
Proof.
  intros H.
  destruct (clamp_cases lo hi v) as [[E _] | [(E & H1 & H2) | [E H1]]];
    [exact E | lra |].
  unfold clamp, Qmin, Qmax, GenericMinMax.gmin, GenericMinMax.gmax.
  destruct (Qcompare_spec v lo) as [E1|E1|E1]; try lra;
    destruct (Qcompare_spec v hi) as [E2|E2|E2]; try lra; reflexivity.
Qed.

Lemma clamp_hi (lo hi : Q) : clamp lo hi hi = hi.
Proof.
  unfold clamp, Qmin, Qmax, GenericMinMax.gmin, GenericMinMax.gmax.
  destruct (Qcompare_spec hi lo) as [E1|E1|E1];
    match goal with
    | |- context [(?m ?= hi)] => destruct (Qcompare_spec m hi) as [E2|E2|E2]
    end; try reflexivity; lra.
Qed.

Lemma clamp_idem (lo hi v : Q) :
  clamp lo hi (clamp lo hi v) = clamp lo hi v.
Proof.
  destruct (clamp_cases lo hi v) as [[E H] | [(E & H1 & H2) | [E H1]]];
    rewrite E.
  - now apply clamp_in_range.
  - apply clamp_in_range. lra.
  - apply clamp_hi.
Qed.

Lemma clamp_bounds (lo hi v : Q) :
  lo <= hi -> lo <= clamp lo hi v <= hi.
Proof.
  intros H.
  destruct (clamp_cases lo hi v) as [[E H0] | [(E & H1 & H2) | [E H1]]];
    rewrite E; lra.
Qed.

(** Clamping into an interval that holds [v0] does not move a point away
    from [v0]. *)
Lemma clamp_toward (lo hi v v0 B : Q) :
  lo <= v0 <= hi ->
  Qabs (v - v0) <= B ->
  Qabs (clamp lo hi v - v0) <= B /\ lo <= clamp lo hi v <= hi.
Proof.
  intros H0 HB. apply Qabs_Qle_condition in HB.
  split; [|apply clamp_bounds; lra].
  apply Qabs_Qle_condition.
  destruct (clamp_cases lo hi v) as [[E H] | [(E & H1 & H2) | [E H1]]];
    rewrite E; lra.
Qed.

Lemma scaled_within (c p e : Q) :
  - e <= p <= e -> Qabs (c * p) <= Qabs c * e.
Proof.
  intros H. rewrite Qabs_Qmult.
  assert (Hp : Qabs p <= e) by (apply Qabs_Qle_condition; exact H).
  pose proof (Qabs_nonneg c) as Hc.
  rewrite (Qmult_comm (Qabs c) (Qabs p)), (Qmult_comm (Qabs c) e).
  apply Qmult_le_compat_r; assumption.
Qed.

End Clamp.

(** ** Runs of [perturb] *)

(** The state the loop starts from. *)
Definition initial (x : list (list Q)) : LoopState :=
  {| x_cur := fresh x; p_total := zeros_like x |}.

Lemma initial_wf (x : list (list Q)) : wf_state x (initial x).
Proof.
  split; [reflexivity|]. split; [apply shape_zeros_like | reflexivity].
Qed.

Section Runs.

Variable net : Classifier.

Lemma perturb_run_ok (a a' : Attack) (rng : nat -> Z) (x : list (list Q))
    (y : list Z) (classes : ClassTable) :
  init_classes net a rng x = Ok (a', classes) ->
  let lp := loop net a' (the_num_classes a') classes x y
                 (Z.to_nat (nb_iter a')) (initial x) in
  perturb_run net a rng x y =
  {| self_after := a'; trace := fst lp;
     returned := st' <- snd lp ;; Ok (data (x_cur st')) |}.
Proof.
  intros E. unfold perturb_run. rewrite E. fold (initial x).
  cbv zeta.
  destruct (loop net a' (the_num_classes a') classes x y
              (Z.to_nat (nb_iter a')) (initial x)) as [tr r].
  reflexivity.
Qed.

Lemma perturb_run_raise (a : Attack) (rng : nat -> Z) (x : list (list Q))
    (y : list Z) (e : Error) :
  init_classes net a rng x = Raise e ->
  perturb_run net a rng x y =
  {| self_after := a; trace := []; returned := Raise e |}.
Proof. intros E. unfold perturb_run. now rewrite E. Qed.

Lemma init_classes_rows (a a' : Attack) (rng : nat -> Z)
    (x : list (list Q)) (classes : ClassTable) :
  init_classes net a rng x = Ok (a', classes) ->
  length (rows classes) = length x.
Proof.
  intros E.
  destruct (init_classes_nb_iter net _ _ _ _ _ E)
    as (_ & _ & _ & _ & _ & _ & _ & ->).
  unfold predict. now rewrite !length_map.
Qed.

Lemma returned_inv (r : result LoopState) (out : list (list Q)) :
  (st' <- r ;; Ok (data (x_cur st'))) = Ok out ->
  exists st', r = Ok st' /\ out = data (x_cur st').
Proof.
  destruct r as [st'|e]; simpl; [|discriminate].
  intros H; injection H as <-. eauto.
Qed.

Lemma Forall_clamp_ (z : list (list Q)) (lo hi : Q) :
  (lo <= hi)%Q ->
  Forall (Forall (fun v => (lo <= v <= hi)%Q)) (clamp_ z lo hi).
Proof.
  intros H. unfold clamp_. apply Forall_map, Forall_forall. intros row _.
  apply Forall_map, Forall_forall. intros v _. now apply clamp_bounds.
Qed.

(** C6.  [p_total] starts at zero, and at the end of every iteration of
    the loop, whether it goes on or breaks, each of its entries lies in
    [[-eps, eps]] (for a budget [eps >= 0]). *)
Theorem p_total_within_budget (a : Attack) (rng : nat -> Z)
    (x : list (list Q)) (y : list Z) :
  (0 <= eps a)%Q ->
  let run := perturb_run net a rng x y in
  (forall rec, nth_error (trace run) 0 = Some rec ->
               p_total (it_top rec) = zeros_like x) /\
  forall rec st',
    In rec (trace run) ->
    it_out rec = Ok (Continue st') \/ it_out rec = Ok (Break st') ->
    Forall (Forall (fun v => (- eps a <= v <= eps a)%Q)) (p_total st').
Proof.
  intros Heps run. unfold run.
  destruct (init_classes net a rng x) as [[a' classes]|e] eqn:E.
  2:{ rewrite (perturb_run_raise _ _ _ _ _ E). simpl.
      split; [discriminate | contradiction]. }
  rewrite (perturb_run_ok _ _ _ _ _ _ E). cbv zeta. simpl trace.
  destruct (init_classes_nb_iter net _ _ _ _ _ E) as (_ & He & _).
  rewrite <- He.
  set (P := fun st : LoopState =>
              Forall (Forall (fun v => (- eps a' <= v <= eps a')%Q))
                     (p_total st)).
  assert (Hstep : forall st calls st',
             P st ->
             iteration net a' (the_num_classes a') classes x y st
             = (calls, Ok (Continue st')) -> P st').
  { intros st calls st' _ H. unfold P.
    destruct (continue_clamped _ _ _ _ _ _ _ _ _ H) as [_ [praw ->]].
    apply Forall_clamp_. rewrite He. lra. }
  assert (H0 : P (initial x)).
  { unfold P, initial, zeros_like. simpl.
    apply Forall_map, Forall_forall. intros row _.
    apply Forall_map, Forall_forall. intros v _. rewrite He. lra. }
  destruct (loop_inv net a' (the_num_classes a') classes x y P Hstep
              (Z.to_nat (nb_iter a')) (initial x) H0) as [Hall _].
  split.
  - intros rec Hrec.
    destruct (Z.to_nat (nb_iter a')) as [|n]; simpl in Hrec;
      [discriminate|].
    destruct (iteration net a' (the_num_classes a') classes x y (initial x))
      as [calls [[st1|st1]|e]]; simpl in Hrec.
    + destruct (loop net a' (the_num_classes a') classes x y n st1).
      simpl in Hrec. now injection Hrec as <-.
    + now injection Hrec as <-.
    + now injection Hrec as <-.
  - intros rec st' Hin Hout.
    rewrite Forall_forall in Hall. destruct (Hall rec Hin) as [HP Hf].
    unfold faithful in Hf. destruct Hout as [Ho | Ho]; rewrite Ho in Hf.
    + exact (Hstep _ _ _ HP Hf).
    + destruct (break_same _ _ _ _ _ _ _ _ _ Hf) as [_ ->]. exact HP.
Qed.

End Runs.

(** ** Gradient buffers during a run *)

Section Buffers.

Variable net : Classifier.

Lemma wf_step (a : Attack) (nc : Z) (classes : ClassTable)
    (x : list (list Q)) (y : list Z) :
  length (rows classes) = length x ->
  length y = length x ->
  forall st calls st',
    wf_state x st ->
    iteration net a nc classes x y st = (calls, Ok (Continue st')) ->
    wf_state x st'.
Proof.
  intros Hrows Hy st calls st' Hwf H.
  destruct (iteration_spec net a nc classes x y Hrows Hy st _ _ Hwf H)
    as [_ [Hwf' _]]. exact Hwf'.
Qed.

(** C10.  In a run of [perturb] every [get_grads] call starts from a
    buffer that holds no gradient, returns as ['grads'] the gradient of
    the summed deltas at the working point it was given, and leaves the
    buffer of that working point zeroed, ready for the next challenger. *)
Theorem get_grads_extracts_and_clears (a a' : Attack) (rng : nat -> Z)
    (x : list (list Q)) (y : list Z) (classes : ClassTable) :
  length y = length x ->
  init_classes net a rng x = Ok (a', classes) ->
  forall rec ev,
    In rec (trace (perturb_run net a rng x y)) ->
    In ev (it_calls rec) ->
    clean (ev_before ev) /\
    forall d x', ev_result ev = Ok (d, x') ->
      (exists i0 ik,
          column classes 0 = Ok i0 /\
          column classes (ev_k ev) = Ok ik /\
          grads d = grad_sum_deltas net (data (ev_before ev)) i0 ik) /\
      data x' = data (ev_before ev) /\
      grad x' = Some (zeros_like (data x')).
Proof.
  intros Hy E rec ev Hrec Hev.
  rewrite (perturb_run_ok _ _ _ _ _ _ _ E) in Hrec. cbv zeta in Hrec.
  simpl trace in Hrec.
  pose proof (init_classes_rows net _ _ _ _ _ E) as Hrows.
  destruct (loop_inv net a' (the_num_classes a') classes x y (wf_state x)
              (wf_step a' _ classes x y Hrows Hy)
              (Z.to_nat (nb_iter a')) (initial x) (initial_wf x))
    as [Hall _].
  rewrite Forall_forall in Hall. destruct (Hall rec Hrec) as [Hwf Hf].
  destruct (iteration_spec net a' _ classes x y Hrows Hy _ _ _ Hwf Hf)
    as [Hcalls _].
  rewrite Forall_forall in Hcalls. exact (Hcalls ev Hev).
Qed.

End Buffers.

(** ** The budget and the clipping range *)

Section Budget.

Variable net : Classifier.

Local Open Scope Q_scope.

(** every entry of [x] lies in the clipping range of [a] *)
Definition in_clip_range (a : Attack) (x : list (list Q)) : Prop :=
  forall r d, (r < length x)%nat -> (d < length (nth r x []))%nat ->
              clip_min a <= entry x r d <= clip_max a.

(** entry-wise, [v] is within [B] of [x] and inside the clipping range *)
Definition near (a : Attack) (B : Q) (x v : list (list Q)) : Prop :=
  forall r d, (r < length x)%nat -> (d < length (nth r x []))%nat ->
              Qabs (entry v r d - entry x r d) <= B /\
              clip_min a <= entry v r d <= clip_max a.

Lemma entry_where_ (c : list bool) (u v : list (list Q)) (r d : nat) :
  (r < length c)%nat -> (r < length u)%nat -> (r < length v)%nat ->
  entry (where_ c u v) r d
  = if nth r c false then entry u r d else entry v r d.
Proof.
  intros H1 H2 H3. unfold entry. rewrite nth_where_ by assumption.
  now destruct (nth r c false).
Qed.

Lemma near_step (a : Attack) (nc : Z) (classes : ClassTable)
    (x : list (list Q)) (y : list Z) :
  length (rows classes) = length x ->
  length y = length x ->
  0 <= eps a ->
  in_clip_range a x ->
  forall st calls st',
    wf_state x st /\ near a (Qabs (1 + overshoot a) * eps a) x
                          (data (x_cur st)) ->
    iteration net a nc classes x y st = (calls, Ok (Continue st')) ->
    wf_state x st' /\ near a (Qabs (1 + overshoot a) * eps a) x
                           (data (x_cur st')).
Proof.
  intros Hrows Hy Heps Hx st calls st' [Hwf Hnear] H.
  destruct (iteration_spec net a nc classes x y Hrows Hy st _ _ Hwf H)
    as [_ (Hwf' & _ & praw & Hpraw & Hp & Hdata)].
  split; [exact Hwf'|].
  destruct Hwf as (HX & _ & _). destruct Hwf' as (HX' & Hp' & _).
  intros r d Hr Hd.
  assert (HlX : length (data (x_cur st)) = length x)
    by now apply shape_eq_length.
  set (cand := t_add x (t_scale (1 + overshoot a) (p_total st'))) in *.
  set (adv := is_adv (predict net (data (x_cur st))) y) in *.
  assert (Hcand : shape cand = shape x).
  { unfold cand. apply shape_t_add. now rewrite shape_t_scale, Hp'. }
  assert (Hladv : length adv = length (data (x_cur st)))
    by (unfold adv; now apply (is_adv_length net classes x y Hrows Hy)).
  assert (Hw : shape (where_ adv (data (x_cur st)) cand) = shape x).
  { rewrite shape_where_; [exact HX | exact Hladv | now rewrite Hcand]. }
  rewrite Hdata. unfold clamp_.
  rewrite entry_map_map;
    [| rewrite (shape_eq_length _ _ Hw); exact Hr
     | rewrite (shape_row _ _ r Hw); exact Hd].
  pose proof (shape_eq_length _ _ Hcand) as Hlc.
  rewrite entry_where_ by lia.
  apply clamp_toward; [now apply Hx|].
  destruct (nth r adv false).
  - exact (proj1 (Hnear r d Hr Hd)).
  - unfold cand. rewrite entry_t_add;
      [| now rewrite shape_t_scale, Hp' | exact Hr | exact Hd].
    unfold t_scale. rewrite entry_map_map;
      [| rewrite (shape_eq_length _ _ Hp'); exact Hr
       | rewrite (shape_row _ _ r Hp'); exact Hd].
    rewrite Hp. unfold clamp_. rewrite entry_map_map;
      [| rewrite (shape_eq_length _ _ Hpraw); exact Hr
       | rewrite (shape_row _ _ r Hpraw); exact Hd].
    set (p := clamp (- eps a) (eps a) (entry praw r d)).
    assert (Hpb : - eps a <= p <= eps a) by (apply clamp_bounds; lra).
    pose proof (scaled_within (1 + overshoot a) p (eps a) Hpb) as Hs.
    apply Qabs_Qle_condition in Hs. apply Qabs_Qle_condition.
    set (w := (1 + overshoot a) * p) in *. lra.
Qed.

(** How far the code does go.  For a budget [eps >= 0], labels of the
    batch's length and an input inside the clipping range, what [perturb]
    returns has the shape of the input, each entry within
    [|1 + overshoot| * eps] of the input's and inside
    [[clip_min, clip_max]]: the overshoot is applied after [p_total] is
    clamped to the budget. *)
Theorem perturb_within_overshoot_budget (a : Attack) (rng : nat -> Z)
    (x : list (list Q)) (y : list Z) (x_adv : list (list Q)) :
  0 <= eps a ->
  length y = length x ->
  in_clip_range a x ->
  returned (perturb_run net a rng x y) = Ok x_adv ->
  shape x_adv = shape x /\
  forall r d, (r < length x)%nat -> (d < length (nth r x []))%nat ->
    Qabs (entry x_adv r d - entry x r d) <= Qabs (1 + overshoot a) * eps a /\
    clip_min a <= entry x_adv r d <= clip_max a.
Proof.
  intros Heps Hy Hx Hret.
  destruct (init_classes net a rng x) as [[a' classes]|e] eqn:E.
  2:{ rewrite (perturb_run_raise _ _ _ _ _ _ E) in Hret. discriminate. }
  rewrite (perturb_run_ok _ _ _ _ _ _ _ E) in Hret. cbv zeta in Hret.
  simpl returned in Hret.
  apply returned_inv in Hret. destruct Hret as (st' & Hr & ->).
  pose proof (init_classes_rows net _ _ _ _ _ E) as Hrows.
  destruct (init_classes_nb_iter net _ _ _ _ _ E)
    as (_ & He & _ & Ho & Hlo & Hhi & _).
  assert (Heps' : 0 <= eps a') by now rewrite He.
  assert (Hx' : in_clip_range a' x).
  { intros r d Hr' Hd. rewrite Hlo, Hhi. now apply Hx. }
  remember (Qabs (1 + overshoot a') * eps a') as B eqn:EB.
  assert (HB : 0 <= B).
  { rewrite EB. apply Qmult_le_0_compat; [apply Qabs_nonneg | exact Heps']. }
  set (P := fun st => wf_state x st /\ near a' B x (data (x_cur st))).
  assert (H0 : P (initial x)).
  { split; [apply initial_wf|]. intros r d Hr' Hd.
    unfold initial, fresh. cbn [x_cur data].
    split; [|now apply Hx'].
    apply Qabs_Qle_condition. lra. }
  assert (Hstep : forall st calls st',
             P st ->
             iteration net a' (the_num_classes a') classes x y st
             = (calls, Ok (Continue st')) -> P st').
  { unfold P. rewrite EB.
    exact (near_step a' _ classes x y Hrows Hy Heps' Hx'). }
  destruct (loop_inv net a' (the_num_classes a') classes x y P Hstep
              (Z.to_nat (nb_iter a')) (initial x) H0) as [Hall Hfin].
  assert (Hend : shape (data (x_cur st')) = shape x /\
                 near a' B x (data (x_cur st'))).
  { destruct (Hfin st' Hr) as [[(HX & _) Hn] | (rec & Hin & Hout)].
    - auto.
    - rewrite Forall_forall in Hall.
      destruct (Hall rec Hin) as [[(HX & _) Hn] Hf].
      unfold faithful in Hf. rewrite Hout in Hf.
      destruct (break_same _ _ _ _ _ _ _ _ _ Hf) as [-> _]. auto. }
  destruct Hend as [Hsh Hn]. split; [exact Hsh|].
  intros r d Hr' Hd. rewrite EB in Hn.
  rewrite <- He, <- Ho, <- Hlo, <- Hhi. now apply Hn.
Qed.

End Budget.

(** ** Frozen samples *)

Section Freeze.

Variable net : Classifier.

(** sample [s] of the batch [X] is adversarial for the labels [y] *)
Definition adv_at (X : list (list Q)) (y : list Z) (s : nat) : bool :=
  nth s (is_adv (predict net X) y) false.

(** C5 as a property of a run: a sample found adversarial at the top of
    iteration [i] keeps its working point in every later iteration, and
    that point is what [perturb] returns for it. *)
Definition frozen_from (a : Attack) (rng : nat -> Z) (x : list (list Q))
    (y : list Z) (i s : nat) : Prop :=
  let run := perturb_run net a rng x y in
  forall ri,
    nth_error (trace run) i = Some ri ->
    adv_at (data (x_cur (it_top ri))) y s = true ->
    (forall j rj,
        i <= j -> nth_error (trace run) j = Some rj ->
        nth s (data (x_cur (it_top rj))) []
        = nth s (data (x_cur (it_top ri))) []) /\
    (forall out,
        returned run = Ok out ->
        nth s out [] = nth s (data (x_cur (it_top ri))) []).

Lemma adv_at_lt (X : list (list Q)) (y : list Z) (s : nat) :
  adv_at X y s = true -> s < length X /\ s < length y.
Proof.
  unfold adv_at. intros H.
  destruct (Nat.lt_ge_cases s (length (is_adv (predict net X) y)))
    as [Hlt | Hge].
  - unfold is_adv, predict in Hlt.
    rewrite map2_length, length_map in Hlt. lia.
  - rewrite nth_overflow in H by exact Hge. discriminate.
Qed.

Lemma adv_at_eq (X X' : list (list Q)) (y : list Z) (s : nat) :
  length X = length X' ->
  nth s X [] = nth s X' [] ->
  adv_at X y s = adv_at X' y s.
Proof.
  intros Hl Hrow. unfold adv_at, is_adv, predict.
  destruct (Nat.lt_ge_cases s (Nat.min (length X) (length y)))
    as [Hlt | Hge].
  - rewrite !(map2_nth _ _ _ _ [] 0%Z) by (rewrite ?length_map; lia).
    rewrite !(nth_map_in _ _ s [] []) by lia.
    now rewrite Hrow.
  - rewrite !nth_overflow; [reflexivity | |];
      rewrite map2_length, length_map; lia.
Qed.

Lemma nth_clamp_ (z : list (list Q)) (lo hi : Q) (s : nat) :
  nth s (clamp_ z lo hi) [] = map (clamp lo hi) (nth s z []).
Proof.
  unfold clamp_.
  change (@nil Q) with (map (clamp lo hi) []) at 1. apply map_nth.
Qed.

Lemma map_clamp_idem (lo hi : Q) (row : list Q) :
  map (clamp lo hi) (map (clamp lo hi) row) = map (clamp lo hi) row.
Proof.
  rewrite map_map. apply map_ext. intros v. apply clamp_idem.
Qed.

Lemma map_clamp_in_range (lo hi : Q) (row : list Q) :
  Forall (fun v => (lo <= v <= hi)%Q) row -> map (clamp lo hi) row = row.
Proof.
  induction 1 as [|v t Hv _ IH]; simpl; [reflexivity|].
  now rewrite IH, clamp_in_range.
Qed.

Lemma frozen_step (a : Attack) (nc : Z) (classes : ClassTable)
    (x : list (list Q)) (y : list Z) (s : nat) (R : list Q) :
  length (rows classes) = length x ->
  length y = length x ->
  map (clamp (clip_min a) (clip_max a)) R = R ->
  (forall X, length X = length x -> nth s X [] = R -> adv_at X y s = true) ->
  forall st calls st',
    wf_state x st /\ nth s (data (x_cur st)) [] = R ->
    iteration net a nc classes x y st = (calls, Ok (Continue st')) ->
    wf_state x st' /\ nth s (data (x_cur st')) [] = R.
Proof.
  intros Hrows Hy HR Hadv st calls st' [Hwf Hrow] H.
  destruct (iteration_spec net a nc classes x y Hrows Hy st _ _ Hwf H)
    as [_ (Hwf' & _ & praw & Hpraw & Hp & Hdata)].
  split; [exact Hwf'|].
  destruct Hwf as (HX & _ & _). destruct Hwf' as (_ & Hp' & _).
  pose proof (shape_eq_length _ _ HX) as HlX.
  pose proof (Hadv _ HlX Hrow) as Ha.
  destruct (adv_at_lt _ _ _ Ha) as [Hs _].
  rewrite Hdata, nth_clamp_, nth_where_.
  - unfold adv_at in Ha. now rewrite Ha, Hrow.
  - rewrite (is_adv_length net classes x y Hrows Hy) by exact HlX.
    exact Hs.
  - exact Hs.
  - assert (Hc : shape (t_add x (t_scale (1 + overshoot a) (p_total st')))
                 = shape x).
    { apply shape_t_add. now rewrite shape_t_scale, Hp'. }
    rewrite (shape_eq_length _ _ Hc). lia.
Qed.

Lemma loop_first (a : Attack) (nc : Z) (classes : ClassTable)
    (x : list (list Q)) (y : list Z) (n : nat) (st : LoopState)
    (rec : IterRecord) :
  nth_error (fst (loop net a nc classes x y n st)) 0 = Some rec ->
  it_top rec = st.
Proof.
  destruct n as [|n]; simpl; [discriminate|].
  destruct (iteration net a nc classes x y st) as [calls [[st1|st1]|e]];
    simpl.
  - destruct (loop net a nc classes x y n st1). simpl.
    intros H; now injection H as <-.
  - intros H; now injection H as <-.
  - intros H; now injection H as <-.
Qed.

End Freeze.

Section FreezeTheorem.

Variable net : Classifier.

(** C5 (as amended).  With labels of the batch's length: a sample found
    adversarial at the top of iteration [i] keeps its working point in
    every later iteration and [perturb] returns that point for it,
    provided [i >= 1] or the sample's input already lies inside
    [[clip_min, clip_max]]. *)
Theorem frozen_once_adversarial (a : Attack) (rng : nat -> Z)
    (x : list (list Q)) (y : list Z) (i s : nat) :
  length y = length x ->
  1 <= i \/
  Forall (fun v => (clip_min a <= v <= clip_max a)%Q) (nth s x []) ->
  frozen_from net a rng x y i s.
Proof.
  intros Hy Hcond. unfold frozen_from. cbv zeta.
  destruct (init_classes net a rng x) as [[a' classes]|e] eqn:E.
  2:{ rewrite (perturb_run_raise _ _ _ _ _ _ E). simpl.
      intros ri H. destruct i; discriminate. }
  rewrite (perturb_run_ok _ _ _ _ _ _ _ E). cbv zeta.
  simpl trace. simpl returned.
  pose proof (init_classes_rows net _ _ _ _ _ E) as Hrows.
  destruct (init_classes_nb_iter net _ _ _ _ _ E)
    as (_ & _ & _ & _ & Hlo & Hhi & _).
  set (n := Z.to_nat (nb_iter a')).
  set (nc := the_num_classes a').
  intros ri Hri Hadv.
  destruct (loop_inv net a' nc classes x y (wf_state x)
              (wf_step net a' nc classes x y Hrows Hy)
              n (initial x) (initial_wf x)) as [Hall _].
  rewrite Forall_forall in Hall.
  destruct (Hall ri (nth_error_In _ _ Hri)) as [Hwf _].
  set (R := nth s (data (x_cur (it_top ri))) []) in *.
  assert (HR : map (clamp (clip_min a') (clip_max a')) R = R).
  { destruct i as [|i].
    - destruct Hcond as [Hi | Hin]; [lia|].
      unfold R. rewrite (loop_first _ _ _ _ _ _ _ _ _ Hri).
      unfold initial, fresh. cbn [x_cur data].
      rewrite Hlo, Hhi. now apply map_clamp_in_range.
    - destruct (loop_later_clamped _ _ _ _ _ _ _ _ _ _ Hri) as [z Hz].
      unfold R. rewrite Hz, nth_clamp_. apply map_clamp_idem. }
  assert (HadvR : forall X, length X = length x -> nth s X [] = R ->
                            adv_at net X y s = true).
  { intros X HlX HXR. rewrite <- Hadv. apply adv_at_eq; [|exact HXR].
    rewrite HlX. symmetry. apply shape_eq_length. exact (proj1 Hwf). }
  destruct (loop_suffix net a' nc classes x y n (initial x) i ri Hri)
    as [m Hm].
  destruct (loop_inv net a' nc classes x y
              (fun st => wf_state x st /\ nth s (data (x_cur st)) [] = R)
              (frozen_step net a' nc classes x y s R Hrows Hy HR HadvR)
              m (it_top ri) (conj Hwf eq_refl)) as [Hfz Hfin].
  rewrite Hm in Hfz, Hfin. simpl fst in Hfz. simpl snd in Hfin.
  simpl fst in Hfin.
  rewrite Forall_forall in Hfz.
  split.
  - intros j rj Hij Hrj.
    assert (Hin : In rj (skipn i (fst (loop net a' nc classes x y n
                                            (initial x))))).
    { apply (nth_error_In _ (j - i)). rewrite nth_error_skipn.
      now replace (i + (j - i)) with j by lia. }
    exact (proj2 (proj1 (Hfz rj Hin))).
  - intros out Hout. apply returned_inv in Hout.
    destruct Hout as (st' & Hr & ->).
    destruct (Hfin st' Hr) as [[_ Hrow] | (rec & Hin & Hbrk)];
      [exact Hrow|].
    destruct (Hfz rec Hin) as [[_ Hrow] Hf].
    unfold faithful in Hf. rewrite Hbrk in Hf.
    destruct (break_same _ _ _ _ _ _ _ _ _ Hf) as [-> _]. exact Hrow.
Qed.

End FreezeTheorem.

(** ** Early returns and configuration *)

Section Configuration.

Variable net : Classifier.

Lemma loop_zero (a : Attack) (nc : Z) (classes : ClassTable)
    (x : list (list Q)) (y : list Z) (st : LoopState) :
  loop net a nc classes x y 0 st = ([], Ok st).
Proof. reflexivity. Qed.

(** The first iteration on a batch whose samples are all adversarial. *)
Lemma loop_all_adv (a : Attack) (nc : Z) (classes : ClassTable)
    (x : list (list Q)) (y : list Z) (n : nat) :
  2 <= cols classes ->
  all_adv net y (initial x) = true ->
  exists rec st',
    loop net a nc classes x y (S n) (initial x) = ([rec], Ok st') /\
    data (x_cur st') = x /\
    map ev_k (it_calls rec) = [1].
Proof.
  intros Hc Hadv. simpl. rewrite iteration_eq.
  destruct (get_grads_ok net (x_cur (initial x)) 1 classes
              ltac:(lia) ltac:(lia)) as (d & x1 & E).
  rewrite E.
  destruct (get_grads_inv net _ _ _ _ _ E)
    as (i0 & ik & _ & _ & Hlog & _ & _ & Hdata & _).
  cbv zeta. simpl fst. simpl snd. rewrite Hlog.
  unfold all_adv in Hadv. rewrite Hadv.
  eexists; eexists. split; [reflexivity|]. split; [exact Hdata|].
  reflexivity.
Qed.

Lemma clamp__in_range (x : list (list Q)) (lo hi : Q) :
  Forall (Forall (fun v => (lo <= v <= hi)%Q)) x -> clamp_ x lo hi = x.
Proof.
  unfold clamp_. induction 1 as [|row t Hrow _ IH]; simpl; [reflexivity|].
  now rewrite IH, map_clamp_in_range.
Qed.

Lemma clamp__fixed (x : list (list Q)) (lo hi : Q) :
  (lo <= hi)%Q -> clamp_ x lo hi = x ->
  Forall (Forall (fun v => (lo <= v <= hi)%Q)) x.
Proof.
  intros Hle H. rewrite <- H. now apply Forall_clamp_.
Qed.

(** C7 (as amended).  When the prelude raises nothing and either
    [nb_iter <= 0], or the classifier has at least two classes, there is
    one label per sample and the top-1 class differs from the label for
    every sample, [perturb] returns the input itself, unchanged and not
    clipped.  That is the clipped input when the input lies in the
    clipping range, and for [clip_min <= clip_max] only then. *)
Theorem perturb_returns_input (a a' : Attack) (rng : nat -> Z)
    (x : list (list Q)) (y : list Z) (classes : ClassTable) :
  init_classes net a rng x = Ok (a', classes) ->
  (nb_iter a <= 0)%Z \/
  (2 <= n_out net /\ length y = length x /\
   all_adv net y (initial x) = true) ->
  returned (perturb_run net a rng x y) = Ok x /\
  (Forall (Forall (fun v => (clip_min a <= v <= clip_max a)%Q)) x ->
   clamp_ x (clip_min a) (clip_max a) = x) /\
  ((clip_min a <= clip_max a)%Q ->
   clamp_ x (clip_min a) (clip_max a) = x ->
   Forall (Forall (fun v => (clip_min a <= v <= clip_max a)%Q)) x).
Proof.
  intros E Hcase. split; [|split].
  - rewrite (perturb_run_ok _ _ _ _ _ _ _ E). cbv zeta. simpl returned.
    destruct (init_classes_nb_iter net _ _ _ _ _ E)
      as (Hnb & _ & _ & _ & _ & _ & Hcols & _).
    destruct (Z.to_nat (nb_iter a')) as [|n] eqn:En.
    + reflexivity.
    + destruct Hcase as [Hz | (Hc & _ & Hadv)]; [lia|].
      rewrite <- Hcols in Hc.
      destruct (loop_all_adv a' (the_num_classes a') classes x y n Hc Hadv)
        as (rec & st' & -> & Hd & _).
      simpl. now rewrite Hd.
  - apply clamp__in_range.
  - apply clamp__fixed.
Qed.

Lemma range2_small (nc : Z) : (nc < 2)%Z -> range2 nc = [].
Proof.
  intros H. unfold range2. now replace (Z.to_nat (nc - 2)) with 0 by lia.
Qed.

(** C9 (as amended).  [perturb] checks no configuration up front.
    - With [nb_iter <= 0] (non-random mode) no iteration runs and the
      input is returned.
    - With [num_classes < 2] in random mode, drawing the random classes
      raises at once, before any iteration.
    - With [num_classes < 2] in non-random mode, [nb_iter >= 1], a
      classifier of at least two classes and one label per sample, a
      single iteration runs and makes the [k = 1] call only; then the
      input is returned if every sample is adversarial, and the shape
      assertion fails otherwise. *)
Theorem malformed_configuration (a : Attack) (rng : nat -> Z)
    (x : list (list Q)) (y : list Z) :
  let run := perturb_run net a rng x y in
  ((nb_iter a <= 0)%Z -> random_class a = false ->
   returned run = Ok x /\ trace run = []) /\
  (forall n, num_classes a = Some n -> (n < 2)%Z ->
     random_class a = true ->
     returned run = Raise RuntimeError /\ trace run = []) /\
  (forall n, num_classes a = Some n -> (n < 2)%Z ->
     random_class a = false -> (1 <= nb_iter a)%Z -> 2 <= n_out net ->
     length y = length x ->
     map (fun rec => map ev_k (it_calls rec)) (trace run) = [[1]] /\
     returned run = if all_adv net y (initial x)
                    then Ok x else Raise AssertionError).
Proof.
  cbv zeta. split; [|split].
  - intros Hnb Hr. unfold perturb_run, init_classes. rewrite Hr.
    destruct (num_classes a); fold (initial x); simpl nb_iter;
      replace (Z.to_nat (nb_iter a)) with 0 by lia; simpl; auto.
  - intros n Hn Hlt Hr. unfold perturb_run, init_classes. rewrite Hr, Hn.
    unfold random_. replace (1 <? n)%Z with false by (symmetry; lia).
    simpl. auto.
  - intros n Hn Hlt Hr Hnb Hc _.
    unfold perturb_run, init_classes. rewrite Hr, Hn. fold (initial x).
    simpl nb_iter.
    set (a' := set_num_classes a (Z.min n (Z.of_nat (n_out net)))).
    set (classes := {| cols := n_out net; rows := _ |}).
    destruct (Z.to_nat (nb_iter a)) as [|m] eqn:Em; [lia|].
    destruct (all_adv net y (initial x)) eqn:Hadv.
    + destruct (loop_all_adv a' (the_num_classes a') classes x y m Hc Hadv)
        as (rec & st' & -> & Hd & Hk).
      simpl. now rewrite Hd, Hk.
    + simpl loop. rewrite iteration_eq.
      destruct (get_grads_ok net (x_cur (initial x)) 1 classes
                  ltac:(simpl; lia) ltac:(simpl; lia)) as (d & x1 & E).
      rewrite E.
      destruct (get_grads_inv net _ _ _ _ _ E)
        as (i0 & ik & _ & _ & Hlog & _).
      cbv zeta. simpl fst. simpl snd. rewrite Hlog.
      unfold all_adv in Hadv. rewrite Hadv.
      assert (Hnc : (the_num_classes a' < 2)%Z)
        by (unfold a', the_num_classes; simpl; lia).
      rewrite (range2_small _ Hnc). simpl get_grads_for. unfold run_ret.
      simpl fst.
      assert (Hf : (Z.of_nat (length [d]) =? the_num_classes a' - 1)%Z
                   = false)
        by (apply Z.eqb_neq; simpl length; lia).
      rewrite Hf. simpl. auto.
Qed.

End Configuration.

(** ** The attack object across calls *)

Section Repeat.

Variable net : Classifier.

Lemma random_gather (rng : nat -> Z) (N : nat) (to : option Z)
    (classes : ClassTable) (draws : list Z) (g : list nat) :
  random_ rng N to = Ok draws ->
  gather classes draws = Ok g ->
  N = 0 \/ 2 <= cols classes.
Proof.
  intros Hd Hg. destruct N as [|N]; [now left | right].
  unfold gather in Hg.
  destruct (forallb _ draws) eqn:Hf; [|discriminate].
  rewrite forallb_forall in Hf.
  assert (Hin : exists M, (0 < M)%Z /\ In (1 + rng 0%nat mod M)%Z draws).
  { unfold random_ in Hd. destruct to as [n|].
    - destruct (1 <? n)%Z eqn:Hn; [|discriminate].
      apply Z.ltb_lt in Hn. injection Hd as <-.
      exists (n - 1)%Z. split; [lia | now left].
    - injection Hd as <-. exists (2 ^ 63 - 1)%Z. split; [lia | now left]. }
  destruct Hin as (M & HM & Hin). specialize (Hf _ Hin).
  apply andb_true_iff in Hf. destruct Hf as [_ Hlt].
  apply Z.ltb_lt in Hlt.
  pose proof (Z.mod_pos_bound (rng 0%nat) M HM). lia.
Qed.

(** The prelude, run again on the object it left behind, leaves it as it
    is and builds the same candidate classes. *)
Lemma init_classes_again (a a' : Attack) (rng rng' : nat -> Z)
    (x : list (list Q)) (classes : ClassTable) :
  init_classes net a rng x = Ok (a', classes) ->
  init_classes net a' rng' x = Ok (a', classes) /\
  num_classes a' =
  Some (if random_class a then 2%Z
        else match num_classes a with
             | None => Z.of_nat (n_out net)
             | Some n => Z.min n (Z.of_nat (n_out net))
             end).
Proof.
  unfold init_classes, rbind.
  set (tbl := {| cols := n_out net; rows := _ |}).
  destruct (random_class a) eqn:Hr.
  - destruct (random_ rng (length x) (num_classes a)) as [draws|] eqn:Ed;
      [|discriminate].
    destruct (column tbl 0) as [c0|] eqn:Ec; [|discriminate].
    destruct (gather tbl draws) as [g|] eqn:Eg; [|discriminate].
    intros H; injection H as <- <-. split; [|reflexivity].
    simpl random_class. rewrite Hr. simpl num_classes.
    unfold random_. change (1 <? 2)%Z with true. cbv beta iota.
    assert (Hg : forallb
                   (fun j => (0 <=? j)%Z && (j <? Z.of_nat (cols tbl))%Z)
                   (map (fun r => (1 + rng' r mod (2 - 1))%Z)
                        (seq 0 (length x))) = true).
    { apply forallb_forall. intros j Hj. apply in_map_iff in Hj.
      destruct Hj as (r & <- & Hr'). apply in_seq in Hr'.
      destruct (random_gather _ _ _ _ _ _ Ed Eg) as [H0 | H2]; [lia|].
      change (2 - 1)%Z with 1%Z. rewrite Z.mod_1_r.
      apply andb_true_iff. split; [reflexivity|].
      apply Z.ltb_lt. lia. }
    unfold gather. cbv beta iota. rewrite Hg. reflexivity.
  - destruct (num_classes a) as [n|] eqn:En; intros H;
      injection H as <- <-; (split; [|reflexivity]);
      simpl random_class; rewrite Hr; simpl num_classes; fold tbl.
    + cbv beta iota.
      now replace (Z.min (Z.min n (Z.of_nat (n_out net)))
                         (Z.of_nat (n_out net)))
        with (Z.min n (Z.of_nat (n_out net))) by lia.
    + cbv beta iota. now rewrite Z.min_id.
Qed.

(** C3 (as amended).  A call to [perturb] leaves [nb_iter], [eps],
    [random_class], [overshoot], [clip_min] and [clip_max] as they were.
    A call whose class setup raises leaves the whole object as it was.
    A call whose class setup raises nothing overwrites [num_classes] with
    the number of classes it uses (2 in random mode; otherwise the
    configured value capped at the classifier's class count, or that
    count when unset), whether the loop then returns or raises; and on the
    object it leaves behind, a repeated call with the same inputs ends the
    same way, with the same output or the same exception, and changes
    nothing, whatever the random draws. *)
Theorem perturb_frame_and_repeat (a : Attack) (rng : nat -> Z)
    (x : list (list Q)) (y : list Z) :
  let a' := fst (perturb net a rng x y) in
  (nb_iter a' = nb_iter a /\ eps a' = eps a /\
   random_class a' = random_class a /\ overshoot a' = overshoot a /\
   clip_min a' = clip_min a /\ clip_max a' = clip_max a) /\
  (forall e,
      init_classes net a rng x = Raise e ->
      a' = a /\ snd (perturb net a rng x y) = Raise e) /\
  forall a1 classes,
    init_classes net a rng x = Ok (a1, classes) ->
    num_classes a' =
    Some (if random_class a then 2%Z
          else match num_classes a with
               | None => Z.of_nat (n_out net)
               | Some n => Z.min n (Z.of_nat (n_out net))
               end) /\
    forall rng',
      perturb net a' rng' x y = (a', snd (perturb net a rng x y)).
Proof.
  unfold perturb. cbv zeta. simpl fst. simpl snd.
  destruct (init_classes net a rng x) as [[a' classes]|e] eqn:E.
  - rewrite (perturb_run_ok _ _ _ _ _ _ _ E). cbv zeta.
    simpl self_after. simpl returned.
    destruct (init_classes_nb_iter net _ _ _ _ _ E)
      as (H1 & H2 & H3 & H4 & H5 & H6 & _).
    split; [repeat split; assumption|].
    split; [discriminate|].
    intros a1 c1 _.
    destruct (init_classes_again a a' rng rng x classes E) as [_ Hnum].
    split; [exact Hnum|].
    intros rng'.
    destruct (init_classes_again a a' rng rng' x classes E) as [E' _].
    rewrite (perturb_run_ok _ _ _ _ _ _ _ E'). cbv zeta.
    simpl self_after. simpl returned. reflexivity.
  - rewrite (perturb_run_raise _ _ _ _ _ _ E). simpl.
    split; [repeat split; reflexivity|].
    split; [|discriminate].
    intros e' He'. injection He' as <-. auto.
Qed.

End Repeat.

(** * Concrete runs *)

(** A classifier on one-entry samples with two classes: class 0 scores the
    entry, class 1 scores 0. *)
Definition net2 : Classifier :=
  {| n_out := 2;
     score := fun s c => match c with O => nth 0 s 0%Q | _ => 0%Q end;
     dscore := fun s c d => match c with O => 1%Q | _ => 0%Q end |}.

(** A classifier with a single class. *)
Definition net1 : Classifier :=
  {| n_out := 1; score := fun s c => 0%Q; dscore := fun s c d => 0%Q |}.

(** A classifier with three classes of constant scores 3, 2 and 1. *)
Definition net3 : Classifier :=
  {| n_out := 3;
     score := fun s c => match c with O => 3%Q | 1 => 2%Q | _ => 1%Q end;
     dscore := fun s c d => 0%Q |}.

(** The constructor's defaults. *)
Definition default_attack : Attack :=
  {| num_classes := None; nb_iter := 50; eps := 1 # 10;
     random_class := false; overshoot := 1 # 50;
     clip_min := 0; clip_max := 1 |}.

Definition with_nb_iter (a : Attack) (n : Z) : Attack :=
  {| num_classes := num_classes a; nb_iter := n; eps := eps a;
     random_class := random_class a; overshoot := overshoot a;
     clip_min := clip_min a; clip_max := clip_max a |}.

(** Random mode over three classes, one iteration. *)
Definition random_attack : Attack :=
  {| num_classes := Some 3%Z; nb_iter := 1; eps := 1 # 10;
     random_class := true; overshoot := 1 # 50;
     clip_min := 0; clip_max := 1 |}.

Definition rng0 : nat -> Z := fun _ => 0%Z.
Definition rng1 : nat -> Z := fun _ => 1%Z.

(** ** C1: the budget is exceeded by the overshoot *)

(** The budget of [eps] does not hold of every run: with the default
    configuration, the sample [0.5] labelled with its own top-1 class is
    returned 0.102 away from the input. *)
Lemma budget_exceeded_by_overshoot :
  ~ (forall (net : Classifier) (a : Attack) (rng : nat -> Z)
            (x : list (list Q)) (y : list Z) (x_adv : list (list Q)),
        returned (perturb_run net a rng x y) = Ok x_adv ->
        forall r d, r < length x -> d < length (nth r x []) ->
          (Qabs (entry x_adv r d - entry x r d) <= eps a)%Q /\
          (clip_min a <= entry x_adv r d <= clip_max a)%Q).
Proof.
  intros H.
  pose proof (H net2 default_attack rng0 [[1 # 2]] [0%Z]) as H1.
  destruct (returned (perturb_run net2 default_attack rng0 [[1 # 2]] [0%Z]))
    as [out|e] eqn:E; vm_compute in E; [|discriminate].
  injection E as <-.
  destruct (H1 _ eq_refl 0 0 ltac:(simpl; lia) ltac:(simpl; lia)) as [Hb _].
  vm_compute in Hb. apply Hb. reflexivity.
Qed.

(** ** C2: the random challenger is dropped *)

(** C2, at the failing input.  In random mode over three classes, with the
    draw 2 for the only sample: [num_classes] becomes 2, the table that
    pairs the top-1 class with the drawn class 2 is built from the sorted
    classes [[0; 1; 2]] but not kept, the loop goes on with the full table,
    and its only gradient call, [k = 1], takes the delta of the runner-up
    class 1 (2 - 3 = -1) and not of the drawn class 2 (1 - 3 = -2). *)
Theorem random_challenger_dropped :
  random_ rng1 1 (Some 3%Z) = Ok [2%Z] /\
  (c0 <- column {| cols := 3; rows := [[0; 1; 2]] |} 0 ;;
   g <- gather {| cols := 3; rows := [[0; 1; 2]] |} [2%Z] ;;
   Ok (cat c0 g)) = Ok {| cols := 2; rows := [[0; 2]] |} /\
  init_classes net3 random_attack rng1 [[0%Q]]
  = Ok (set_num_classes random_attack 2,
        {| cols := 3; rows := [[0; 1; 2]] |}) /\
  map (fun rec =>
         map (fun ev => (ev_k ev,
                         match ev_result ev with
                         | Ok (d, _) => deltas d
                         | Raise _ => []
                         end))
             (it_calls rec))
      (trace (perturb_run net3 random_attack rng1 [[0%Q]] [0%Z]))
  = [[(1, [(-1 # 1)%Q])]].
Proof.
  repeat split; vm_compute; reflexivity.
Qed.

(** ** C3: [num_classes] is overwritten *)

(** C3, refuted.  The default attack object has [num_classes = None]; after
    one call on a two-class classifier it has [num_classes = Some 2]. *)
Lemma num_classes_overwritten :
  ~ (forall (net : Classifier) (a : Attack) (rng : nat -> Z)
            (x : list (list Q)) (y : list Z),
        num_classes (fst (perturb net a rng x y)) = num_classes a).
Proof.
  intros H.
  specialize (H net2 default_attack rng0 [[1 # 2]] [0%Z]).
  vm_compute in H. discriminate.
Qed.

(** ** C5: an out-of-range sample is clipped while frozen *)

(** C5, refuted.  Two samples, clipping range [[0, 1]], two iterations.
    Sample 0 is [2] with label 1: its top-1 class is 0, so it is
    adversarial at the top of the first iteration.  Sample 1 is not, so the
    iteration goes on and clips sample 0 to [1], which is also what is
    returned for it. *)
Lemma frozen_sample_clipped :
  ~ (forall (net : Classifier) (a : Attack) (rng : nat -> Z)
            (x : list (list Q)) (y : list Z) (i s : nat),
        frozen_from net a rng x y i s).
Proof.
  intros H.
  specialize (H net2 (with_nb_iter default_attack 2) rng0
                [[2%Q]; [1 # 2]] [1%Z; 0%Z] 0 0).
  unfold frozen_from in H. cbv zeta in H.
  destruct (nth_error
              (trace (perturb_run net2 (with_nb_iter default_attack 2) rng0
                                  [[2%Q]; [1 # 2]] [1%Z; 0%Z])) 0)
    as [ri|] eqn:E; vm_compute in E; [|discriminate].
  injection E as <-.
  destruct (H _ eq_refl) as [_ Hout]; [vm_compute; reflexivity|].
  destruct (returned (perturb_run net2 (with_nb_iter default_attack 2) rng0
                                  [[2%Q]; [1 # 2]] [1%Z; 0%Z]))
    as [out|e] eqn:E; vm_compute in E; [|discriminate].
  injection E as <-.
  specialize (Hout _ eq_refl). vm_compute in Hout. discriminate.
Qed.

(** ** C7: the early return does not clip *)

(** C7, refuted.  With [nb_iter = 0] and clipping range [[0, 1]] the input
    [2] is returned as it is, not as its clipped value [1]. *)
Lemma early_return_not_clipped :
  ~ (forall (net : Classifier) (a : Attack) (rng : nat -> Z)
            (x : list (list Q)) (y : list Z),
        nb_iter a = 0%Z ->
        returned (perturb_run net a rng x y)
        = Ok (clamp_ x (clip_min a) (clip_max a))).
Proof.
  intros H.
  specialize (H net2 (with_nb_iter default_attack 0) rng0 [[2%Q]] [0%Z]
                eq_refl).
  vm_compute in H. discriminate.
Qed.

(** ** C9: a malformed configuration is not refused *)

(** C9, refuted.  With [nb_iter = 0], [perturb] raises nothing and returns
    its input. *)
Lemma malformed_configuration_accepted :
  ~ (forall (net : Classifier) (a : Attack) (rng : nat -> Z)
            (x : list (list Q)) (y : list Z),
        (nb_iter a <= 0)%Z \/
        (exists n, num_classes a = Some n /\ (n < 2)%Z) ->
        exists e, returned (perturb_run net a rng x y) = Raise e).
Proof.
  intros H.
  destruct (H net2 (with_nb_iter default_attack 0) rng0 [[1 # 2]] [0%Z])
    as [e He].
  - left. simpl. lia.
  - vm_compute in He. discriminate.
Qed.

(** ** The theorems at concrete inputs *)

(** One sample, three candidates with deltas 1, -1/2 and 1/2 and gradients
    of absolute sum 1: the distances of candidates 1 and 2 tie and the
    first of them is selected. *)
Definition ex_deltas : list (list Q) := [[1; - (1 # 2); 1 # 2]]%Q.
Definition ex_grads : list (list (list Q)) := [[[1]; [1]; [-1]]]%Q.

Example ex_selection :
  sel_best (select_best ex_deltas ex_grads) = [1] /\
  sel_deltas (select_best ex_deltas ex_grads) = [(- (1 # 2))%Q].
Proof. split; vm_compute; reflexivity. Qed.

Lemma select_best_first_min_witness :
  (length ex_grads = length ex_deltas /\
   0 < length ex_deltas /\
   length (nth 0 ex_grads []) = length (nth 0 ex_deltas []) /\
   nth 0 ex_deltas [] <> []) /\
  nth 0 (sel_best (select_best ex_deltas ex_grads)) 0
  < length (nth 0 (sel_all (select_best ex_deltas ex_grads)) []) /\
  nth 0 (sel_grads (select_best ex_deltas ex_grads)) []
  = nth (nth 0 (sel_best (select_best ex_deltas ex_grads)) 0)
        (nth 0 ex_grads []) [].
Proof.
  assert (H1 : length ex_grads = length ex_deltas) by reflexivity.
  assert (H2 : 0 < length ex_deltas) by (simpl; lia).
  assert (H3 : length (nth 0 ex_grads []) = length (nth 0 ex_deltas []))
    by reflexivity.
  assert (H4 : nth 0 ex_deltas [] <> []) by (simpl; discriminate).
  split; [repeat split; assumption|].
  destruct (select_best_first_min ex_deltas ex_grads 0 H1 H2 H3 H4)
    as (_ & _ & Hb & _ & _ & _ & _ & Hg).
  split; [exact Hb | exact Hg].
Defined.

(** The default attack with the three-class classifier.  With label 0,
    the top-1 class, an iteration calls [k = 1] and [k = 2]; with label 1
    the sample is adversarial from the start, the first iteration makes
    the [k = 1] call only and is the last. *)
Lemma loop_bounded_early_exit_witness :
  map (fun rec => map ev_k (it_calls rec))
      (trace (perturb_run net3 (with_nb_iter default_attack 2) rng0
                          [[0%Q]] [0%Z]))
  = [[1; 2]; [1; 2]] /\
  length [1%Z] = length [[0%Q]] /\
  exists rec,
    nth_error (trace (perturb_run net3 default_attack rng0 [[0%Q]] [1%Z])) 0
    = Some rec /\
    all_adv net3 [1%Z] (it_top rec) = true /\
    map ev_k (it_calls rec) = [1] /\
    length (trace (perturb_run net3 default_attack rng0 [[0%Q]] [1%Z])) = 1.
Proof.
  split; [vm_compute; reflexivity|].
  assert (Hy : length [1%Z] = length [[0%Q]]) by reflexivity.
  split; [exact Hy|].
  destruct (nth_error
              (trace (perturb_run net3 default_attack rng0 [[0%Q]] [1%Z])) 0)
    as [rec|] eqn:E; [|vm_compute in E; discriminate].
  exists rec.
  assert (Hadv : all_adv net3 [1%Z] (it_top rec) = true).
  { vm_compute in E. injection E as <-. vm_compute. reflexivity. }
  destruct (proj2 (loop_bounded_early_exit net3 default_attack rng0
                     [[0%Q]] [1%Z]) Hy 0 rec E Hadv) as [Hk Hl].
  repeat split; assumption.
Defined.

Lemma p_total_within_budget_witness :
  (0 <= eps default_attack)%Q /\
  forall rec st',
    In rec (trace (perturb_run net2 default_attack rng0 [[1 # 2]] [0%Z])) ->
    it_out rec = Ok (Continue st') \/ it_out rec = Ok (Break st') ->
    Forall (Forall (fun v => (- eps default_attack <= v
                              <= eps default_attack)%Q))
           (p_total st').
Proof.
  assert (H : (0 <= eps default_attack)%Q) by (unfold Qle; simpl; lia).
  split; [exact H|].
  exact (proj2 (p_total_within_budget net2 default_attack rng0
                  [[1 # 2]] [0%Z] H)).
Defined.

Example ex_p_total_saturates :
  map (fun rec => match it_out rec with
                  | Ok (Continue st') => p_total st'
                  | _ => []
                  end)
      (trace (perturb_run net2 (with_nb_iter default_attack 2) rng0
                          [[1 # 2]] [0%Z]))
  = [[[(- (1 # 10))%Q]]; [[(- (1 # 10))%Q]]].
Proof. vm_compute. reflexivity. Qed.

(** Three classes with scores [3 + x], [2 + 2x] and [1 - x] at the
    one-entry sample [x]: their derivatives are 1, 2 and -1. *)
Definition net3lin : Classifier :=
  {| n_out := 3;
     score := fun s c =>
                match c with
                | O => (3 + nth 0 s 0)%Q
                | 1 => (2 + 2 * nth 0 s 0)%Q
                | _ => (1 - nth 0 s 0)%Q
                end;
     dscore := fun s c d =>
                 match c with
                 | O => 1%Q
                 | 1 => 2%Q
                 | _ => (-1 # 1)%Q
                 end |}.

(** One iteration on the sample [0] with label 0, all three classes
    considered.  The call for [k = 1] runs on the fresh tensor and leaves
    the buffer zeroed; the call for [k = 2] starts from that zeroed buffer
    and returns the gradient of its own delta, [-1 - 1 = -2], with nothing
    left of the gradient [2 - 1 = 1] of the call before. *)
Lemma get_grads_extracts_and_clears_witness :
  (length [0%Z] = length [[0%Q]] /\
   init_classes net3lin (with_nb_iter default_attack 1) rng0 [[0%Q]]
   = Ok (set_num_classes (with_nb_iter default_attack 1) 3,
         {| cols := 3; rows := [[0; 1; 2]] |})) /\
  exists rec ev d x',
    In rec (trace (perturb_run net3lin (with_nb_iter default_attack 1) rng0
                               [[0%Q]] [0%Z])) /\
    In ev (it_calls rec) /\
    ev_k ev = 2 /\
    grad (ev_before ev) = Some [[0%Q]] /\
    ev_result ev = Ok (d, x') /\
    grads d = grad_sum_deltas net3lin (data (ev_before ev)) [0] [2] /\
    grads d = [[(-2 # 1)%Q]] /\
    grad x' = Some (zeros_like (data x')).
Proof.
  assert (H1 : length [0%Z] = length [[0%Q]]) by reflexivity.
  assert (H2 : init_classes net3lin (with_nb_iter default_attack 1) rng0
                            [[0%Q]]
               = Ok (set_num_classes (with_nb_iter default_attack 1) 3,
                     {| cols := 3; rows := [[0; 1; 2]] |}))
    by (vm_compute; reflexivity).
  split; [exact (conj H1 H2)|].
  destruct (nth_error
              (trace (perturb_run net3lin (with_nb_iter default_attack 1)
                                  rng0 [[0%Q]] [0%Z])) 0)
    as [rec|] eqn:E; [|vm_compute in E; discriminate].
  destruct (nth_error (it_calls rec) 1) as [ev|] eqn:Ev.
  2:{ exfalso. vm_compute in E. injection E as <-.
      vm_compute in Ev. discriminate. }
  destruct (ev_result ev) as [[d x']|e] eqn:Er.
  2:{ exfalso. vm_compute in E. injection E as <-.
      vm_compute in Ev. injection Ev as <-.
      vm_compute in Er. discriminate. }
  exists rec, ev, d, x'.
  pose proof (nth_error_In _ _ E) as Hrec.
  pose proof (nth_error_In _ _ Ev) as Hev.
  destruct (get_grads_extracts_and_clears net3lin
              (with_nb_iter default_attack 1) _ rng0 [[0%Q]] [0%Z] _
              H1 H2 rec ev Hrec Hev) as [_ Hres].
  destruct (Hres d x' Er) as ((i0 & ik & H0 & Hk & Hg) & _ & Hbuf).
  assert (Hk2 : ev_k ev = 2).
  { vm_compute in E. injection E as <-.
    vm_compute in Ev. injection Ev as <-. reflexivity. }
  assert (Hb : grad (ev_before ev) = Some [[0%Q]]).
  { vm_compute in E. injection E as <-.
    vm_compute in Ev. injection Ev as <-. reflexivity. }
  assert (Hval : grads d = [[(-2 # 1)%Q]]).
  { vm_compute in E. injection E as <-.
    vm_compute in Ev. injection Ev as <-.
    vm_compute in Er. injection Er as <- _. reflexivity. }
  rewrite Hk2 in Hk.
  vm_compute in H0. injection H0 as <-.
  vm_compute in Hk. injection Hk as <-.
  split; [exact Hrec|]. split; [exact Hev|]. split; [exact Hk2|].
  split; [exact Hb|]. split; [exact Er|]. split; [exact Hg|].
  split; [exact Hval | exact Hbuf].
Defined.

(** what the default attack returns for [0.5] with label 0 *)
Definition ex_adv : list (list Q) :=
  match returned (perturb_run net2 default_attack rng0 [[1 # 2]] [0%Z]) with
  | Ok v => v
  | Raise _ => []
  end.

Example ex_adv_value : Forall2 (Forall2 Qeq) ex_adv [[(398 # 1000)%Q]].
Proof. vm_compute. repeat constructor. Qed.

(** C1, at the failing input.  With the constructor's defaults
    ([eps = 0.1], [overshoot = 0.02], clipping range [[0, 1]]) and the
    two-class classifier, the sample [0.5], inside the clipping range and
    labelled with its own top-1 class, is returned as
    [0.5 - 1.02 * 0.1 = 0.398]: [p_total] is clamped to [-eps] and then
    scaled by [1 + overshoot], so the point ends [(1 + overshoot) * eps =
    0.102] away from the input, more than [eps]. *)
Theorem overshoot_exceeds_budget :
  exists v,
    returned (perturb_run net2 default_attack rng0 [[1 # 2]] [0%Z])
    = Ok [[v]] /\
    (v == 398 # 1000)%Q /\
    (clip_min default_attack <= 1 # 2 <= clip_max default_attack)%Q /\
    (Qabs (v - (1 # 2))
     == (1 + overshoot default_attack) * eps default_attack)%Q /\
    (eps default_attack < Qabs (v - (1 # 2)))%Q.
Proof.
  exists (entry ex_adv 0 0).
  split; [vm_compute; reflexivity|].
  split; [vm_compute; reflexivity|].
  split; [vm_compute; split; discriminate|].
  split; vm_compute; reflexivity.
Qed.

Lemma perturb_within_overshoot_budget_witness :
  ((0 <= eps default_attack)%Q /\
   length [0%Z] = length [[(1 # 2)%Q]] /\
   in_clip_range default_attack [[1 # 2]] /\
   returned (perturb_run net2 default_attack rng0 [[1 # 2]] [0%Z])
   = Ok ex_adv) /\
  shape ex_adv = shape [[1 # 2]] /\
  (Qabs (entry ex_adv 0 0 - entry [[1 # 2]] 0 0)
   <= Qabs (1 + overshoot default_attack) * eps default_attack)%Q /\
  (clip_min default_attack <= entry ex_adv 0 0 <= clip_max default_attack)%Q.
Proof.
  assert (H1 : (0 <= eps default_attack)%Q) by (unfold Qle; simpl; lia).
  assert (H2 : length [0%Z] = length [[(1 # 2)%Q]]) by reflexivity.
  assert (H3 : in_clip_range default_attack [[1 # 2]]).
  { intros r d Hr Hd. simpl in Hr.
    destruct r as [|r]; [|lia]. simpl in Hd. destruct d as [|d]; [|lia].
    vm_compute. split; discriminate. }
  assert (H4 : returned (perturb_run net2 default_attack rng0
                                     [[1 # 2]] [0%Z]) = Ok ex_adv)
    by (vm_compute; reflexivity).
  split; [exact (conj H1 (conj H2 (conj H3 H4)))|].
  destruct (perturb_within_overshoot_budget net2 default_attack rng0
              [[1 # 2]] [0%Z] ex_adv H1 H2 H3 H4) as [Hs Hb].
  split; [exact Hs|].
  apply (Hb 0 0); simpl; lia.
Defined.

(** Two samples inside the clipping range, three iterations: sample 0 has
    label 1 and top-1 class 0, so it is adversarial at the first
    iteration; sample 1 never is. *)
Example ex_frozen_run :
  map (fun rec => nth 0 (data (x_cur (it_top rec))) [])
      (trace (perturb_run net2 (with_nb_iter default_attack 3) rng0
                          [[1 # 2]; [1 # 2]] [1%Z; 0%Z]))
  = [[1 # 2]; [1 # 2]; [1 # 2]]%Q /\
  adv_at net2 [[1 # 2]; [1 # 2]]%Q [1%Z; 0%Z] 0 = true.
Proof. split; vm_compute; reflexivity. Qed.

Lemma frozen_once_adversarial_witness :
  (length [1%Z; 0%Z] = length [[(1 # 2)%Q]; [(1 # 2)%Q]] /\
   (1 <= 0 \/
    Forall (fun v => (clip_min (with_nb_iter default_attack 3) <= v
                      <= clip_max (with_nb_iter default_attack 3))%Q)
           (nth 0 [[(1 # 2)%Q]; [(1 # 2)%Q]] []))) /\
  frozen_from net2 (with_nb_iter default_attack 3) rng0
              [[1 # 2]; [1 # 2]] [1%Z; 0%Z] 0 0.
Proof.
  assert (H1 : length [1%Z; 0%Z] = length [[(1 # 2)%Q]; [(1 # 2)%Q]])
    by reflexivity.
  assert (H2 : 1 <= 0 \/
               Forall (fun v => (clip_min (with_nb_iter default_attack 3) <= v
                                 <= clip_max (with_nb_iter default_attack 3))%Q)
                      (nth 0 [[(1 # 2)%Q]; [(1 # 2)%Q]] [])).
  { right. simpl. constructor; [|constructor].
    vm_compute. split; discriminate. }
  split; [exact (conj H1 H2)|].
  exact (frozen_once_adversarial net2 (with_nb_iter default_attack 3) rng0
           [[1 # 2]; [1 # 2]] [1%Z; 0%Z] 0 0 H1 H2).
Defined.

(** The sample [2] with label 1 (its top-1 class is 0) and clipping range
    [[0, 1]]: the first iteration breaks and [2] is returned, which is not
    its clipped value. *)
Lemma perturb_returns_input_witness :
  (init_classes net2 default_attack rng0 [[2%Q]]
   = Ok (set_num_classes default_attack 2,
         {| cols := 2; rows := [[0; 1]] |}) /\
   ((nb_iter default_attack <= 0)%Z \/
    (2 <= n_out net2 /\ length [1%Z] = length [[2%Q]] /\
     all_adv net2 [1%Z] (initial [[2%Q]]) = true))) /\
  returned (perturb_run net2 default_attack rng0 [[2%Q]] [1%Z])
  = Ok [[2%Q]] /\
  clamp_ [[2%Q]] (clip_min default_attack) (clip_max default_attack)
  <> [[2%Q]].
Proof.
  assert (H1 : init_classes net2 default_attack rng0 [[2%Q]]
               = Ok (set_num_classes default_attack 2,
                     {| cols := 2; rows := [[0; 1]] |}))
    by (vm_compute; reflexivity).
  assert (H2 : (nb_iter default_attack <= 0)%Z \/
               (2 <= n_out net2 /\ length [1%Z] = length [[2%Q]] /\
                all_adv net2 [1%Z] (initial [[2%Q]]) = true)).
  { right. split; [simpl; lia|]. split; [reflexivity|].
    vm_compute. reflexivity. }
  split; [exact (conj H1 H2)|].
  destruct (perturb_returns_input net2 default_attack _ rng0
              [[2%Q]] [1%Z] _ H1 H2) as (Hret & _ & Honly).
  split; [exact Hret|].
  intros Hfix.
  assert (Hle : (clip_min default_attack <= clip_max default_attack)%Q)
    by (unfold Qle; simpl; lia).
  pose proof (Honly Hle Hfix) as Hin.
  inversion Hin as [|row t Hrow _]. inversion Hrow as [|v t' Hv _].
  destruct Hv as [_ Hv]. vm_compute in Hv. apply Hv. reflexivity.
Defined.

(** a configured class count of 1 *)
Definition one_class (a : Attack) : Attack :=
  {| num_classes := Some 1%Z; nb_iter := nb_iter a; eps := eps a;
     random_class := random_class a; overshoot := overshoot a;
     clip_min := clip_min a; clip_max := clip_max a |}.

Lemma malformed_configuration_witness :
  (returned (perturb_run net2 (with_nb_iter default_attack 0) rng0
                         [[1 # 2]] [0%Z]) = Ok [[1 # 2]] /\
   trace (perturb_run net2 (with_nb_iter default_attack 0) rng0
                      [[1 # 2]] [0%Z]) = []) /\
  (returned (perturb_run net3 (one_class random_attack) rng1
                         [[0%Q]] [0%Z]) = Raise RuntimeError /\
   trace (perturb_run net3 (one_class random_attack) rng1
                      [[0%Q]] [0%Z]) = []) /\
  (map (fun rec => map ev_k (it_calls rec))
       (trace (perturb_run net2 (one_class default_attack) rng0
                           [[1 # 2]] [0%Z])) = [[1]] /\
   returned (perturb_run net2 (one_class default_attack) rng0
                         [[1 # 2]] [0%Z])
   = if all_adv net2 [0%Z] (initial [[1 # 2]])
     then Ok [[1 # 2]] else Raise AssertionError).
Proof.
  split; [|split].
  - apply (proj1 (malformed_configuration net2
                    (with_nb_iter default_attack 0) rng0 [[1 # 2]] [0%Z]));
      [simpl; lia | reflexivity].
  - apply (proj1 (proj2 (malformed_configuration net3
                           (one_class random_attack) rng1 [[0%Q]] [0%Z]))
                 1%Z); [reflexivity | lia | reflexivity].
  - apply (proj2 (proj2 (malformed_configuration net2
                           (one_class default_attack) rng0 [[1 # 2]] [0%Z]))
                 1%Z); [reflexivity | lia | reflexivity | simpl; lia
                       | simpl; lia | reflexivity].
Defined.

Example ex_assertion_fails :
  returned (perturb_run net2 (one_class default_attack) rng0
                        [[1 # 2]] [0%Z]) = Raise AssertionError.
Proof. vm_compute. reflexivity. Qed.

(** Two calls that get past the class setup: one returns, the other, on
    the one-class classifier, raises in its first gradient call.  Both
    overwrite [num_classes], and both end the same way when repeated. *)
Lemma perturb_frame_and_repeat_witness :
  (init_classes net2 default_attack rng0 [[1 # 2]]
   = Ok (set_num_classes default_attack 2,
         {| cols := 2; rows := [[0; 1]] |}) /\
   num_classes (fst (perturb net2 default_attack rng0 [[1 # 2]] [0%Z]))
   = Some 2%Z /\
   perturb net2 (fst (perturb net2 default_attack rng0 [[1 # 2]] [0%Z]))
           rng1 [[1 # 2]] [0%Z]
   = (fst (perturb net2 default_attack rng0 [[1 # 2]] [0%Z]), Ok ex_adv)) /\
  (init_classes net1 default_attack rng0 [[1 # 2]]
   = Ok (set_num_classes default_attack 1,
         {| cols := 1; rows := [[0]] |}) /\
   num_classes (fst (perturb net1 default_attack rng0 [[1 # 2]] [0%Z]))
   = Some 1%Z /\
   perturb net1 (fst (perturb net1 default_attack rng0 [[1 # 2]] [0%Z]))
           rng1 [[1 # 2]] [0%Z]
   = (fst (perturb net1 default_attack rng0 [[1 # 2]] [0%Z]),
      Raise IndexError)).
Proof.
  assert (H2 : init_classes net2 default_attack rng0 [[1 # 2]]
               = Ok (set_num_classes default_attack 2,
                     {| cols := 2; rows := [[0; 1]] |}))
    by (vm_compute; reflexivity).
  assert (H1 : init_classes net1 default_attack rng0 [[1 # 2]]
               = Ok (set_num_classes default_attack 1,
                     {| cols := 1; rows := [[0]] |}))
    by (vm_compute; reflexivity).
  assert (R2 : snd (perturb net2 default_attack rng0 [[1 # 2]] [0%Z])
               = Ok ex_adv) by (vm_compute; reflexivity).
  assert (R1 : snd (perturb net1 default_attack rng0 [[1 # 2]] [0%Z])
               = Raise IndexError) by (vm_compute; reflexivity).
  split.
  - destruct (proj2 (proj2 (perturb_frame_and_repeat net2 default_attack rng0
                              [[1 # 2]] [0%Z])) _ _ H2) as [Hn Hrep].
    split; [exact H2|]. split; [exact Hn|].
    rewrite <- R2. exact (Hrep rng1).
  - destruct (proj2 (proj2 (perturb_frame_and_repeat net1 default_attack rng0
                              [[1 # 2]] [0%Z])) _ _ H1) as [Hn Hrep].
    split; [exact H1|]. split; [exact Hn|].
    rewrite <- R1. exact (Hrep rng1).
Defined.

(** * Further properties of the driver *)

Section DriverMore.

Variable net : Classifier.

Lemma break_all_adv (a : Attack) (nc : Z) (classes : ClassTable)
    (x0 : list (list Q)) (y : list Z) (st : LoopState) calls st' :
  iteration net a nc classes x0 y st = (calls, Ok (Break st')) ->
  all_adv net y st = true /\ all_adv net y st' = true.
Proof.
  intros H. destruct (break_same _ _ _ _ _ _ _ _ _ H) as [Hd _].
  assert (Hst : all_adv net y st = true).
  { rewrite iteration_eq in H.
    destruct (get_grads net (x_cur st) 1 classes) as [[d1 x1]|e] eqn:E;
      [|discriminate].
    destruct (get_grads_inv net _ _ _ _ _ E)
      as (i0 & ik & _ & _ & Hlog & _).
    cbv zeta in H. simpl fst in H. rewrite Hlog in H.
    fold (all_adv net y st) in H.
    destruct (all_adv net y st); [reflexivity|].
    destruct (get_grads_for _ _ _ _) as [l [more|e]]; [|discriminate].
    destruct (negb _); discriminate. }
  split; [exact Hst|]. unfold all_adv in *. now rewrite Hd.
Qed.

Lemma loop_stops_early (a : Attack) (nc : Z) (classes : ClassTable)
    (x0 : list (list Q)) (y : list Z) (n : nat) :
  forall st st',
    snd (loop net a nc classes x0 y n st) = Ok st' ->
    length (fst (loop net a nc classes x0 y n st)) < n ->
    all_adv net y st' = true.
Proof.
  induction n as [|n IH]; intros st st'; simpl; [lia|].
  destruct (iteration net a nc classes x0 y st) as [calls [[st1|st1]|e]] eqn:E.
  - specialize (IH st1 st').
    destruct (loop net a nc classes x0 y n st1) as [tr r]. simpl in *.
    intros Hr Hl. apply IH; [exact Hr | lia].
  - simpl. intros Hr _. injection Hr as <-.
    exact (proj2 (break_all_adv _ _ _ _ _ _ _ _ E)).
  - simpl. discriminate.
Qed.

Lemma returned_length (a : Attack) (rng : nat -> Z)
    (x : list (list Q)) (y : list Z) (out : list (list Q)) :
  length y = length x ->
  returned (perturb_run net a rng x y) = Ok out ->
  length out = length x.
Proof.
  intros Hy.
  destruct (init_classes net a rng x) as [[a' classes]|e] eqn:E.
  2:{ rewrite (perturb_run_raise _ _ _ _ _ _ E). discriminate. }
  rewrite (perturb_run_ok _ _ _ _ _ _ _ E). cbv zeta. simpl returned.
  intros Hret. apply returned_inv in Hret. destruct Hret as (st' & Hr & ->).
  pose proof (init_classes_rows net _ _ _ _ _ E) as Hrows.
  destruct (loop_inv net a' (the_num_classes a') classes x y (wf_state x)
              (wf_step net a' _ classes x y Hrows Hy)
              (Z.to_nat (nb_iter a')) (initial x) (initial_wf x))
    as [Hall Hfin].
  apply shape_eq_length.
  destruct (Hfin st' Hr) as [Hwf | (rec & Hin & Hout)].
  - exact (proj1 Hwf).
  - rewrite Forall_forall in Hall. destruct (Hall rec Hin) as [Hwf Hf].
    unfold faithful in Hf. rewrite Hout in Hf.
    destruct (break_same _ _ _ _ _ _ _ _ _ Hf) as [-> _]. exact (proj1 Hwf).
Qed.

(** For one label per sample: when [perturb] returns after fewer than
    [nb_iter] iterations, what it returns has as many samples as labels
    and every one of them is adversarial, the top-1 class of the returned
    point differs from its label. *)
Theorem early_return_all_adversarial (a : Attack) (rng : nat -> Z)
    (x : list (list Q)) (y : list Z) (out : list (list Q)) :
  length y = length x ->
  returned (perturb_run net a rng x y) = Ok out ->
  (Z.of_nat (length (trace (perturb_run net a rng x y))) < nb_iter a)%Z ->
  length out = length y /\
  length (is_adv (predict net out) y) = length out /\
  forallb (fun b => b) (is_adv (predict net out) y) = true.
Proof.
  intros Hy Hret0 Hlen0.
  pose proof (returned_length a rng x y out Hy Hret0) as Hlo.
  split; [lia|].
  split; [unfold is_adv, predict; rewrite map2_length, length_map; lia|].
  revert Hret0 Hlen0.
  destruct (init_classes net a rng x) as [[a' classes]|e] eqn:E.
  2:{ rewrite (perturb_run_raise _ _ _ _ _ _ E). discriminate. }
  rewrite (perturb_run_ok _ _ _ _ _ _ _ E). cbv zeta.
  simpl returned. simpl trace.
  destruct (init_classes_nb_iter net _ _ _ _ _ E) as (Hnb & _).
  intros Hret Hlen. apply returned_inv in Hret.
  destruct Hret as (st' & Hr & Hout). subst out.
  apply (loop_stops_early a' (the_num_classes a') classes x y
           (Z.to_nat (nb_iter a')) (initial x) st' Hr). lia.
Qed.

(** [perturb] returns a batch of the shape of its input. *)
Theorem perturb_keeps_shape (a : Attack) (rng : nat -> Z)
    (x : list (list Q)) (y : list Z) (out : list (list Q)) :
  length y = length x ->
  returned (perturb_run net a rng x y) = Ok out ->
  shape out = shape x.
Proof.
  intros Hy.
  destruct (init_classes net a rng x) as [[a' classes]|e] eqn:E.
  2:{ rewrite (perturb_run_raise _ _ _ _ _ _ E). discriminate. }
  rewrite (perturb_run_ok _ _ _ _ _ _ _ E). cbv zeta. simpl returned.
  intros Hret. apply returned_inv in Hret. destruct Hret as (st' & Hr & ->).
  pose proof (init_classes_rows net _ _ _ _ _ E) as Hrows.
  destruct (loop_inv net a' (the_num_classes a') classes x y (wf_state x)
              (wf_step net a' _ classes x y Hrows Hy)
              (Z.to_nat (nb_iter a')) (initial x) (initial_wf x))
    as [Hall Hfin].
  destruct (Hfin st' Hr) as [Hwf | (rec & Hin & Hout)].
  - exact (proj1 Hwf).
  - rewrite Forall_forall in Hall. destruct (Hall rec Hin) as [Hwf Hf].
    unfold faithful in Hf. rewrite Hout in Hf.
    destruct (break_same _ _ _ _ _ _ _ _ _ Hf) as [-> _]. exact (proj1 Hwf).
Qed.

Lemma loop_clipped (a : Attack) (nc : Z) (classes : ClassTable)
    (x0 : list (list Q)) (y : list Z) (n : nat) :
  (clip_min a <= clip_max a)%Q ->
  forall st st',
    snd (loop net a nc classes x0 y n st) = Ok st' ->
    Forall (Forall (fun v => (clip_min a <= v <= clip_max a)%Q))
           (data (x_cur st)) \/
    (exists rec st1,
        In rec (fst (loop net a nc classes x0 y n st)) /\
        it_out rec = Ok (Continue st1)) ->
    Forall (Forall (fun v => (clip_min a <= v <= clip_max a)%Q))
           (data (x_cur st')).
Proof.
  intros Hclip. induction n as [|n IH]; intros st st'; simpl.
  - intros H; injection H as <-. intros [H | (rec & st1 & [] & _)]. exact H.
  - destruct (iteration net a nc classes x0 y st) as [calls [[st1|st1]|e]]
      eqn:E.
    + specialize (IH st1 st').
      destruct (loop net a nc classes x0 y n st1) as [tr r]. simpl in *.
      intros Hr _. apply IH; [exact Hr|]. left.
      destruct (continue_clamped _ _ _ _ _ _ _ _ _ E) as [[z ->] _].
      now apply Forall_clamp_.
    + simpl. intros Hr; injection Hr as <-.
      destruct (break_same _ _ _ _ _ _ _ _ _ E) as [-> _].
      intros [H | (rec & st2 & [<- | []] & Ho)]; [exact H|].
      simpl in Ho. discriminate.
    + simpl. discriminate.
Qed.

(** Once an iteration has run to its end, what [perturb] returns lies in
    the clipping range (for [clip_min <= clip_max]), whatever the input. *)
Theorem output_clipped_after_a_step (a : Attack) (rng : nat -> Z)
    (x : list (list Q)) (y : list Z) (out : list (list Q)) :
  (clip_min a <= clip_max a)%Q ->
  returned (perturb_run net a rng x y) = Ok out ->
  (exists rec st1,
      In rec (trace (perturb_run net a rng x y)) /\
      it_out rec = Ok (Continue st1)) ->
  Forall (Forall (fun v => (clip_min a <= v <= clip_max a)%Q)) out.
Proof.
  intros Hclip.
  destruct (init_classes net a rng x) as [[a' classes]|e] eqn:E.
  2:{ rewrite (perturb_run_raise _ _ _ _ _ _ E). discriminate. }
  rewrite (perturb_run_ok _ _ _ _ _ _ _ E). cbv zeta.
  simpl returned. simpl trace.
  destruct (init_classes_nb_iter net _ _ _ _ _ E)
    as (_ & _ & _ & _ & Hlo & Hhi & _).
  intros Hret Hex. apply returned_inv in Hret.
  destruct Hret as (st' & Hr & ->).
  rewrite <- Hlo, <- Hhi.
  apply (loop_clipped a' (the_num_classes a') classes x y
           (Z.to_nat (nb_iter a')) ltac:(rewrite Hlo, Hhi; exact Hclip)
           (initial x) st' Hr).
  right. exact Hex.
Qed.

End DriverMore.

(** ** Which gradient calls an iteration makes *)

Section CallsMade.

Variable net : Classifier.

Lemma get_grads_for_calls (classes : ClassTable) (ks : list nat) :
  forall (x : Tensor) l r,
    get_grads_for net x ks classes = (l, r) ->
    map ev_k l = firstn (length l) ks /\
    length l <= length ks /\
    forall v, r = Ok v -> length l = length ks /\ length (fst v) = length ks.
Proof.
  induction ks as [|k ks IH]; intros x l r; simpl.
  - unfold run_ret. intros H; injection H as <- <-.
    split; [reflexivity|]. split; [simpl; lia|].
    intros v H; injection H as <-. auto.
  - unfold run_bind, logged_get_grads.
    destruct (get_grads net x k classes) as [[d x1]|e].
    + simpl snd.
      destruct (get_grads_for net x1 ks classes) as [l1 r1] eqn:E1.
      destruct (IH x1 l1 r1 E1) as (Hk & Hle & Hok).
      destruct r1 as [[ds x2]|e1]; simpl; intros H; injection H as <- <-.
      * rewrite app_nil_r. simpl. rewrite Hk.
        destruct (Hok _ eq_refl) as [Hl Hd]. simpl in Hd.
        split; [reflexivity|]. split; [lia|].
        intros v Hv; injection Hv as <-. simpl. lia.
      * simpl. rewrite Hk.
        split; [reflexivity|]. split; [lia | discriminate].
    + intros H; injection H as <- <-. simpl.
      split; [reflexivity|]. split; [lia | discriminate].
Qed.

Lemma firstn_seq_min (n start len : nat) :
  firstn n (seq start len) = seq start (Nat.min n len).
Proof.
  revert start len; induction n as [|n IH]; intros start [|len]; simpl;
    try reflexivity.
  now rewrite IH.
Qed.

Lemma iteration_calls (a : Attack) (nc : Z) (classes : ClassTable)
    (x0 : list (list Q)) (y : list Z) (st : LoopState) calls out :
  iteration net a nc classes x0 y st = (calls, out) ->
  exists m,
    map ev_k calls = seq 1 m /\ 1 <= m /\
    (Z.of_nat m <= Z.max 1 (nc - 1))%Z /\
    forall st', out = Ok (Continue st') -> (Z.of_nat m = nc - 1)%Z.
Proof.
  rewrite iteration_eq.
  destruct (get_grads net (x_cur st) 1 classes) as [d1|e].
  2:{ intros H; injection H as <- <-. exists 1.
      repeat split; try lia; discriminate. }
  cbv zeta. destruct (forallb _ _).
  { intros H; injection H as <- <-. exists 1.
    repeat split; try lia; discriminate. }
  destruct (get_grads_for net (snd d1) (range2 nc) classes) as [l r] eqn:E.
  destruct (get_grads_for_calls classes _ _ _ _ E) as (Hk & Hle & Hok).
  assert (Hr2 : length (range2 nc) = Z.to_nat (nc - 2))
    by (unfold range2; apply length_seq).
  assert (Hks : map ev_k (first_call net classes st :: l)
                = seq 1 (S (length l))).
  { simpl. f_equal. rewrite Hk. unfold range2.
    rewrite firstn_seq_min. f_equal. lia. }
  destruct r as [more|e].
  2:{ intros H; injection H as <- <-. exists (S (length l)).
      split; [exact Hks|]. repeat split; try lia; discriminate. }
  destruct (Hok more eq_refl) as [Hl Hd].
  destruct (negb _) eqn:Hneg.
  { intros H; injection H as <- <-. exists (S (length l)).
    split; [exact Hks|]. repeat split; try lia; discriminate. }
  intros H; injection H as <- <-. exists (S (length l)).
  split; [exact Hks|].
  apply negb_false_iff, Z.eqb_eq in Hneg. simpl length in Hneg.
  split; [lia|]. split; [lia|]. intros st' _. lia.
Qed.

(** Every iteration of a run calls [get_grads] for [k = 1, 2, ...] in
    this order, at most [max(1, num_classes - 1)] times, where
    [num_classes] is the value [perturb] left on the object; an iteration
    that runs to its end makes exactly the calls for
    [k = 1 .. num_classes - 1]. *)
Theorem challengers_called_in_order (a : Attack) (rng : nat -> Z)
    (x : list (list Q)) (y : list Z) (nc : Z) (rec : IterRecord) :
  num_classes (self_after (perturb_run net a rng x y)) = Some nc ->
  In rec (trace (perturb_run net a rng x y)) ->
  exists m,
    map ev_k (it_calls rec) = seq 1 m /\ 1 <= m /\
    (Z.of_nat m <= Z.max 1 (nc - 1))%Z /\
    forall st', it_out rec = Ok (Continue st') -> (Z.of_nat m = nc - 1)%Z.
Proof.
  destruct (init_classes net a rng x) as [[a' classes]|e] eqn:E.
  2:{ rewrite (perturb_run_raise _ _ _ _ _ _ E). simpl. contradiction. }
  rewrite (perturb_run_ok _ _ _ _ _ _ _ E). cbv zeta.
  simpl self_after. simpl trace. intros Hnc Hin.
  assert (Hthe : the_num_classes a' = nc)
    by (unfold the_num_classes; now rewrite Hnc).
  destruct (loop_inv net a' (the_num_classes a') classes x y
              (fun _ => True) (fun _ _ _ _ _ => I)
              (Z.to_nat (nb_iter a')) (initial x) I) as [Hall _].
  rewrite Forall_forall in Hall. destruct (Hall rec Hin) as [_ Hf].
  unfold faithful in Hf. rewrite Hthe in Hf.
  exact (iteration_calls _ _ _ _ _ _ _ _ Hf).
Qed.

(** With a classifier of fewer than two classes, in non-random mode and
    with [nb_iter >= 1], [perturb] raises [IndexError] in the first
    gradient call of its first iteration (there is no column 1 of
    [classes] to read), whatever the batch. *)
Theorem too_few_classes_raise (a : Attack) (rng : nat -> Z)
    (x : list (list Q)) (y : list Z) :
  random_class a = false ->
  n_out net < 2 ->
  (1 <= nb_iter a)%Z ->
  returned (perturb_run net a rng x y) = Raise IndexError /\
  map (fun rec => map ev_k (it_calls rec)) (trace (perturb_run net a rng x y))
  = [[1]].
Proof.
  intros Hr Hc Hnb.
  assert (E : exists a' rows',
             init_classes net a rng x
             = Ok (a', {| cols := n_out net; rows := rows' |}) /\
             nb_iter a' = nb_iter a).
  { unfold init_classes. rewrite Hr.
    destruct (num_classes a); eexists; eexists; split; reflexivity. }
  destruct E as (a' & rows' & E & Hnb').
  rewrite (perturb_run_ok _ _ _ _ _ _ _ E). cbv zeta.
  simpl returned. simpl trace.
  destruct (Z.to_nat (nb_iter a')) as [|n] eqn:En; [lia|].
  simpl loop. rewrite iteration_eq.
  assert (Hg : get_grads net (x_cur (initial x)) 1
                         {| cols := n_out net; rows := rows' |}
               = Raise IndexError).
  { unfold get_grads, get_deltas_logits, column, rbind. simpl cols.
    destruct (n_out net) as [|[|c]]; [reflexivity | reflexivity | lia]. }
  rewrite Hg. simpl. auto.
Qed.

Lemma attack_eq (a b : Attack) :
  num_classes a = num_classes b -> nb_iter a = nb_iter b ->
  eps a = eps b -> random_class a = random_class b ->
  overshoot a = overshoot b -> clip_min a = clip_min b ->
  clip_max a = clip_max b -> a = b.
Proof.
  destruct a, b; simpl; intros; subst; reflexivity.
Qed.

(** The random draws have no effect on a call: two calls on the same
    object and inputs whose class setup raises nothing end alike, whatever
    the generator produced. *)
Theorem random_draws_irrelevant (a : Attack) (rng rng' : nat -> Z)
    (x : list (list Q)) (y : list Z) (a1 a2 : Attack)
    (c1 c2 : ClassTable) :
  init_classes net a rng x = Ok (a1, c1) ->
  init_classes net a rng' x = Ok (a2, c2) ->
  perturb_run net a rng x y = perturb_run net a rng' x y.
Proof.
  intros E1 E2.
  destruct (init_classes_nb_iter net _ _ _ _ _ E1)
    as (H1 & H2 & H3 & H4 & H5 & H6 & Hc1 & Hr1).
  destruct (init_classes_nb_iter net _ _ _ _ _ E2)
    as (G1 & G2 & G3 & G4 & G5 & G6 & Hc2 & Hr2).
  destruct (init_classes_again net a a1 rng rng x c1 E1) as [_ N1].
  destruct (init_classes_again net a a2 rng' rng' x c2 E2) as [_ N2].
  assert (Ha : a1 = a2) by (apply attack_eq; congruence).
  assert (Hc : c1 = c2).
  { destruct c1, c2. simpl in *. congruence. }
  rewrite (perturb_run_ok _ _ _ _ _ _ _ E1),
          (perturb_run_ok _ _ _ _ _ _ _ E2).
  now rewrite Ha, Hc.
Qed.

End CallsMade.

(** * Further properties of the helpers *)

(** [atleast_kd]: the shape [x.shape + (1,) * (k - x.ndim)] the tensor is
    reshaped to; Python repeats a tuple zero times for a count [<= 0]. *)
Definition atleast_kd_shape (sh : list nat) (k : Z) : list nat :=
  sh ++ repeat 1 (Z.to_nat (k - Z.of_nat (length sh))).

(** number of elements of a tensor of shape [sh] *)
Definition numel (sh : list nat) : nat := fold_right Nat.mul 1 sh.

Section Helpers.

Local Open Scope Q_scope.

Lemma Qsum_abs_nonneg (g : list Q) : 0 <= Qsum (map Qabs g).
Proof.
  induction g as [|v t IH]; simpl; [lra|].
  pose proof (Qabs_nonneg v). lra.
Qed.

(** [get_distances] never divides by zero and returns no negative
    distance: each denominator is at least [1e-8], and each distance is
    zero exactly when its delta is. *)
Theorem distances_nonnegative (deltas : list (list Q))
    (grads : list (list (list Q))) :
  (forall g : list Q, eps8 <= Qsum (map Qabs g) + eps8) /\
  Forall (Forall (fun d => 0 <= d)) (get_distances deltas grads) /\
  forall n j,
    (n < length deltas)%nat -> (n < length grads)%nat ->
    (j < length (nth n deltas []))%nat ->
    (j < length (nth n grads []))%nat ->
    (nth j (nth n (get_distances deltas grads) []) 0 == 0
     <-> nth j (nth n deltas []) 0 == 0).
Proof.
  assert (Hden : forall g : list Q, 0 < Qsum (map Qabs g) + eps8).
  { intros g. pose proof (Qsum_abs_nonneg g). unfold eps8.
    assert (0 < 1 # 100000000) by reflexivity. lra. }
  assert (Hone : forall dl g, 0 <= Qabs dl / (Qsum (map Qabs g) + eps8)).
  { intros dl g. apply Qle_shift_div_l; [apply Hden|].
    pose proof (Qabs_nonneg dl). lra. }
  split; [|split].
  - intros g. pose proof (Qsum_abs_nonneg g). lra.
  - unfold get_distances. revert grads.
    induction deltas as [|row t IH]; intros [|grow gt]; simpl;
      try constructor; [|apply IH].
    revert grow. induction row as [|dl r IHr]; intros [|g gr]; simpl;
      constructor; [apply Hone | apply IHr].
  - intros n j Hn Hng Hj Hjg. unfold get_distances.
    rewrite (map2_nth _ _ _ _ [] [] []) by assumption.
    rewrite (map2_nth _ _ _ _ 0 [] 0) by assumption.
    set (dl := nth j (nth n deltas []) 0).
    set (den := Qsum (map Qabs (nth j (nth n grads []) [])) + eps8).
    assert (Hd : 0 < den) by apply Hden.
    split; intros H.
    + assert (Ha : Qabs dl == 0).
      { assert (E : Qabs dl == Qabs dl / den * den)
          by (field; lra).
        rewrite E, H. ring. }
      revert Ha. apply Qabs_case; intros; lra.
    + rewrite H. simpl Qabs. unfold Qdiv. ring.
Qed.

Lemma sign_cases (v : Q) :
  (v == 0 /\ sign v = 0) \/ (0 < v /\ sign v = 1) \/ (v < 0 /\ sign v = -1 # 1).
Proof.
  destruct v as [n d]. unfold sign, Qeq, Qlt. simpl.
  destruct n as [|p|p]; simpl.
  - left. split; reflexivity.
  - right. left. split; [lia | reflexivity].
  - right. right. split; [lia | reflexivity].
Qed.

(** Each entry of the step built by [get_perturbations] is the sample's
    distance, its opposite, or zero, after the sign of the gradient entry;
    and the step has the shape of the gradient. *)
Theorem perturbation_follows_sign (distances : list Q)
    (grads : list (list Q)) :
  length distances = length grads ->
  shape (get_perturbations distances grads) = shape grads /\
  forall r d,
    (r < length grads)%nat -> (d < length (nth r grads []))%nat ->
    let p := entry (get_perturbations distances grads) r d in
    let g := entry grads r d in
    (g == 0 -> p == 0) /\
    (0 < g -> p == nth r distances 0) /\
    (g < 0 -> p == - nth r distances 0).
Proof.
  intros Hl. split.
  - unfold get_perturbations, shape. revert grads Hl.
    induction distances as [|dv t IH]; intros [|g gt] Hl; simpl in *;
      try discriminate; [reflexivity|].
    rewrite length_map. f_equal. apply IH. lia.
  - intros r d Hr Hd p g. unfold p, g, entry, get_perturbations.
    rewrite (map2_nth _ _ _ _ 0 [] []) by lia.
    rewrite (nth_map_in _ _ d 0 0) by exact Hd.
    set (v := nth d (nth r grads []) 0).
    destruct (sign_cases v) as [[Hv ->] | [[Hv ->] | [Hv ->]]];
      repeat split; intros; try lra; ring.
Qed.

End Helpers.

Section Reshape.

(** [atleast_kd] reshapes to at least [k] dimensions without touching the
    existing ones: the new shape starts with the old one, has
    [max(ndim, k)] dimensions and as many elements, so the reshape is
    always legal; with [k <= ndim] the shape is unchanged. *)
Theorem atleast_kd_keeps_elements (sh : list nat) (k : Z) :
  firstn (length sh) (atleast_kd_shape sh k) = sh /\
  Z.of_nat (length (atleast_kd_shape sh k)) = Z.max (Z.of_nat (length sh)) k /\
  numel (atleast_kd_shape sh k) = numel sh /\
  ((k <= Z.of_nat (length sh))%Z -> atleast_kd_shape sh k = sh).
Proof.
  unfold atleast_kd_shape.
  set (n := Z.to_nat (k - Z.of_nat (length sh))).
  split; [|split; [|split]].
  - rewrite firstn_app, Nat.sub_diag, firstn_all. simpl. apply app_nil_r.
  - rewrite length_app, repeat_length. unfold n. lia.
  - unfold numel. rewrite fold_right_app.
    replace (fold_right Nat.mul 1 (repeat 1 n)) with 1; [reflexivity|].
    induction n as [|m IH]; simpl; [reflexivity | lia].
  - intros Hk. replace n with 0 by (unfold n; lia). simpl. apply app_nil_r.
Qed.

End Reshape.

(** ** The adversarial test *)

Section Argmax.

Local Open Scope Q_scope.

Lemma argmax_from_spec (l : list Q) :
  forall (best : nat) (bv : Q) (i : nat),
    (argmax_from best bv i l = best /\
     forall j, (j < length l)%nat -> nth j l 0 <= bv)
    \/
    (exists j, argmax_from best bv i l = (i + j)%nat /\
               (j < length l)%nat /\
               bv < nth j l 0 /\
               (forall j', (j' < length l)%nat -> nth j' l 0 <= nth j l 0) /\
               (forall j', (j' < j)%nat -> nth j' l 0 < nth j l 0)).
Proof.
  induction l as [|v t IH]; intros best bv i; simpl.
  - left. split; [reflexivity | intros j Hj; inversion Hj].
  - destruct (Qcompare_spec bv v) as [E|E|E].
    + destruct (IH best bv (S i))
        as [[Hm Hall] | (j & Hm & Hj & Hlt & Hmax & Hfirst)].
      * left. split; [exact Hm|].
        intros [|j] Hj; [lra | apply Hall; lia].
      * right. exists (S j). split; [rewrite Hm; lia|].
        split; [lia|]. split; [exact Hlt|]. split.
        -- intros [|j'] Hj'; [simpl; lra | apply Hmax; lia].
        -- intros [|j'] Hj'; [simpl; lra | apply Hfirst; lia].
    + right.
      destruct (IH i v (S i))
        as [[Hm Hall] | (j & Hm & Hj & Hlt & Hmax & Hfirst)].
      * exists 0%nat. split; [rewrite Hm; lia|].
        split; [lia|]. split; [exact E|]. split.
        -- intros [|j'] Hj'; [simpl; lra | apply Hall; lia].
        -- intros j' Hj'. inversion Hj'.
      * exists (S j). split; [rewrite Hm; lia|].
        split; [lia|]. split; [simpl; lra|]. split.
        -- intros [|j'] Hj'; [simpl; lra | apply Hmax; lia].
        -- intros [|j'] Hj'; [simpl; lra | apply Hfirst; lia].
    + destruct (IH best bv (S i))
        as [[Hm Hall] | (j & Hm & Hj & Hlt & Hmax & Hfirst)].
      * left. split; [exact Hm|].
        intros [|j] Hj; [lra | apply Hall; lia].
      * right. exists (S j). split; [rewrite Hm; lia|].
        split; [lia|]. split; [exact Hlt|]. split.
        -- intros [|j'] Hj'; [simpl; lra | apply Hmax; lia].
        -- intros [|j'] Hj'; [simpl; lra | apply Hfirst; lia].
Qed.

Lemma argmax_first_max (l : list Q) :
  l <> [] ->
  (argmax l < length l)%nat /\
  (forall j, (j < length l)%nat -> nth j l 0 <= nth (argmax l) l 0) /\
  (forall j, (j < argmax l)%nat -> nth j l 0 < nth (argmax l) l 0).
Proof.
  destruct l as [|v t]; [congruence | intros _].
  unfold argmax.
  destruct (argmax_from_spec t 0%nat v 1%nat)
    as [[Hm Hall] | (j & Hm & Hj & Hlt & Hmax & Hfirst)]; rewrite Hm.
  - split; [simpl; lia|]. split.
    + intros [|j] Hj; simpl in *; [lra | apply Hall; lia].
    + intros j Hj. inversion Hj.
  - change (1 + j)%nat with (S j). split; [simpl; lia|]. split.
    + intros [|j'] Hj'; simpl in *; [lra | apply Hmax; lia].
    + intros [|j'] Hj'; simpl in *; [lra | apply Hfirst; lia].
Qed.

(** A sample passes for not adversarial exactly when its label is the
    first class that reaches the highest logit: a label that only ties
    with an earlier class, or is no class index at all, counts as
    adversarial. *)
Theorem is_adv_first_max (lg : list (list Q)) (y : list Z) (r : nat) :
  (r < length lg)%nat -> (r < length y)%nat ->
  nth r lg [] <> [] ->
  (nth r (is_adv lg y) false = false
   <->
   exists c,
     nth r y 0%Z = Z.of_nat c /\
     (c < length (nth r lg []))%nat /\
     (forall j, (j < length (nth r lg []))%nat ->
                nth j (nth r lg []) 0 <= nth c (nth r lg []) 0) /\
     (forall j, (j < c)%nat ->
                nth j (nth r lg []) 0 < nth c (nth r lg []) 0)).
Proof.
  intros Hr Hy Hne. unfold is_adv.
  rewrite (map2_nth _ _ _ _ [] 0%Z) by assumption.
  set (row := nth r lg []) in *.
  destruct (argmax_first_max row Hne) as (Hlt & Hmax & Hfirst).
  rewrite negb_false_iff, Z.eqb_eq. split.
  - intros E. exists (argmax row). auto.
  - intros (c & Ec & Hc & Hcmax & Hcfirst). rewrite Ec. f_equal.
    destruct (Nat.lt_trichotomy (argmax row) c) as [H | [H | H]];
      [|exact H|].
    + specialize (Hcfirst _ H). specialize (Hmax _ Hc). lra.
    + specialize (Hfirst _ H). specialize (Hcmax _ Hlt). lra.
Qed.

End Argmax.

(** ** The candidate classes *)

Section Argsort.

Local Open Scope Q_scope.

Variable l : list Q.

(** index [i] does not score above index [j] *)
Definition below (i j : nat) : Prop := nth i l 0 <= nth j l 0.

Lemma insert_idx_perm (i : nat) (s : list nat) :
  Permutation (insert_idx l i s) (i :: s).
Proof.
  induction s as [|j t IH]; simpl; [reflexivity|].
  destruct (Qle_bool (nth j l 0) (nth i l 0)); [|reflexivity].
  rewrite IH. apply perm_swap.
Qed.

Lemma insert_idx_sorted (i : nat) (s : list nat) :
  StronglySorted below s -> StronglySorted below (insert_idx l i s).
Proof.
  induction 1 as [|j t Hs IH Hj]; simpl.
  - constructor; constructor.
  - destruct (Qle_bool (nth j l 0) (nth i l 0)) eqn:E.
    + apply Qle_bool_iff in E. constructor; [exact IH|].
      apply (Permutation_Forall (Permutation_sym (insert_idx_perm i t))).
      constructor; [exact E | exact Hj].
    + assert (Hlt : nth i l 0 < nth j l 0).
      { apply Qnot_le_lt. intros H. apply Qle_bool_iff in H. congruence. }
      constructor; [constructor; assumption|].
      constructor; [unfold below; lra|].
      eapply Forall_impl; [|exact Hj]. unfold below. intros k Hk. lra.
Qed.

Lemma fold_insert_perm (idx : list nat) :
  forall acc,
    Permutation (fold_left (fun acc i => insert_idx l i acc) idx acc)
                (idx ++ acc).
Proof.
  induction idx as [|i t IH]; intros acc; simpl; [reflexivity|].
  rewrite IH. rewrite insert_idx_perm. symmetry. apply Permutation_middle.
Qed.

Lemma fold_insert_sorted (idx : list nat) :
  forall acc,
    StronglySorted below acc ->
    StronglySorted below (fold_left (fun acc i => insert_idx l i acc) idx acc).
Proof.
  induction idx as [|i t IH]; intros acc H; simpl; [exact H|].
  apply IH. now apply insert_idx_sorted.
Qed.

Lemma argsort_perm : Permutation (argsort l) (seq 0 (length l)).
Proof.
  unfold argsort. rewrite fold_insert_perm. now rewrite app_nil_r.
Qed.

Lemma argsort_sorted : StronglySorted below (argsort l).
Proof. unfold argsort. apply fold_insert_sorted. constructor. Qed.

Lemma strongly_sorted_nth (s : list nat) :
  StronglySorted below s ->
  forall p q, (p < q)%nat -> (q < length s)%nat ->
              below (nth p s 0%nat) (nth q s 0%nat).
Proof.
  induction 1 as [|j t Hs IH Hj]; intros p q Hpq Hq; simpl in *; [lia|].
  destruct q as [|q]; [lia|]. destruct p as [|p].
  - rewrite Forall_forall in Hj. apply Hj. apply nth_In. lia.
  - apply IH; lia.
Qed.

(** The flipped argsort lists every index once, by descending value. *)
Lemma flip_argsort_descending :
  Permutation (flip (argsort l)) (seq 0 (length l)) /\
  forall p q, (p <= q)%nat -> (q < length l)%nat ->
              below (nth q (flip (argsort l)) 0%nat)
                    (nth p (flip (argsort l)) 0%nat).
Proof.
  assert (Hlen : length (argsort l) = length l).
  { rewrite (Permutation_length argsort_perm). apply length_seq. }
  split.
  - unfold flip. rewrite <- argsort_perm. symmetry. apply Permutation_rev.
  - intros p q Hpq Hq. unfold flip.
    rewrite !rev_nth by lia. rewrite Hlen.
    destruct (Nat.eq_dec p q) as [-> | Hne]; [unfold below; lra|].
    apply strongly_sorted_nth; [apply argsort_sorted | lia | lia].
Qed.

End Argsort.

Section ClassTable.

Variable net : Classifier.

Local Open Scope Q_scope.

Lemma predict_row_length (x : list (list Q)) (lg : list Q) :
  In lg (predict net x) -> length lg = n_out net.
Proof.
  unfold predict. intros H. apply in_map_iff in H.
  destruct H as (s & <- & _). now rewrite length_map, length_seq.
Qed.

(** The candidate classes [perturb] builds list, for every sample, each
    class of the classifier exactly once, by descending score at the
    input: column 0 holds a top-scoring class. *)
Theorem classes_sorted_by_score (a a' : Attack) (rng : nat -> Z)
    (x : list (list Q)) (classes : ClassTable) (r : nat) :
  init_classes net a rng x = Ok (a', classes) ->
  (r < length x)%nat ->
  Permutation (nth r (rows classes) []) (seq 0 (n_out net)) /\
  forall p q, (p <= q)%nat -> (q < n_out net)%nat ->
    nth (nth q (nth r (rows classes) []) 0%nat) (nth r (predict net x) []) 0
    <= nth (nth p (nth r (rows classes) []) 0%nat) (nth r (predict net x) []) 0.
Proof.
  intros E Hr.
  destruct (init_classes_nb_iter net _ _ _ _ _ E)
    as (_ & _ & _ & _ & _ & _ & _ & ->).
  assert (Hlp : length (predict net x) = length x)
    by (unfold predict; apply length_map).
  rewrite (nth_map_in _ (predict net x) r [] []) by lia.
  set (lg := nth r (predict net x) []).
  assert (Hlg : length lg = n_out net).
  { apply (predict_row_length x). apply nth_In. lia. }
  destruct (flip_argsort_descending lg) as [Hp Hd].
  rewrite Hlg in Hp, Hd. split; [exact Hp | exact Hd].
Qed.

(** a class table for the batch [x]: one row of [cols] classes of the
    classifier per sample *)
Definition table_for (x : list (list Q)) (classes : ClassTable) : Prop :=
  length (rows classes) = length x /\
  Forall (fun row => length row = cols classes /\
                     Forall (fun c => (c < n_out net)%nat) row)
         (rows classes).

(** On a class table for the batch, [get_deltas_logits] raises
    [IndexError] exactly when the table has no column [k]; otherwise it
    returns the logits at [x] and, for each sample, the score of its
    [k]-th candidate minus the score of its first, which is zero for
    [k = 0]. *)
Theorem get_deltas_logits_columns (x : list (list Q)) (k : nat)
    (classes : ClassTable) :
  table_for x classes ->
  ((cols classes <= k)%nat ->
   get_deltas_logits net x k classes = Raise IndexError) /\
  ((k < cols classes)%nat ->
   exists dl,
     get_deltas_logits net x k classes = Ok dl /\
     dl_logits dl = predict net x /\
     length (dl_deltas dl) = length x /\
     (forall r, (r < length x)%nat ->
        nth r (dl_deltas dl) 0
        = score net (nth r x []) (nth k (nth r (rows classes) []) 0%nat)
          - score net (nth r x []) (nth 0 (nth r (rows classes) []) 0%nat)) /\
     (k = 0%nat -> Forall (fun d => d == 0) (dl_deltas dl))).
Proof.
  intros [Hrows Hwf].
  unfold get_deltas_logits, column, rbind. split.
  - intros Hk.
    destruct (0 <? cols classes)%nat eqn:E0; [|reflexivity].
    replace (k <? cols classes)%nat with false
      by (symmetry; apply Nat.ltb_ge; exact Hk).
    reflexivity.
  - intros Hk.
    replace (0 <? cols classes)%nat with true
      by (symmetry; apply Nat.ltb_lt; lia).
    replace (k <? cols classes)%nat with true
      by (symmetry; apply Nat.ltb_lt; exact Hk).
    eexists. split; [reflexivity|]. simpl.
    split; [reflexivity|].
    assert (Hlp : length (predict net x) = length x)
      by (unfold predict; apply length_map).
    split; [|split].
    + unfold pick. rewrite !map2_length, !length_map. lia.
    + intros r Hr.
      assert (Hcol : forall j, (j < cols classes)%nat ->
                nth r (pick (predict net x)
                            (map (fun row => nth j row 0%nat) (rows classes)))
                    0
                = score net (nth r x []) (nth j (nth r (rows classes) []) 0%nat)).
      { intros j Hj. unfold pick.
        rewrite (map2_nth _ _ _ _ [] 0%nat 0)
          by (rewrite ?length_map; lia).
        rewrite (nth_map_in _ (rows classes) r [] 0%nat) by lia.
        unfold predict. rewrite (nth_map_in _ x r [] []) by lia.
        rewrite Forall_forall in Hwf.
        destruct (Hwf (nth r (rows classes) []))
          as [Hlen Hin]; [apply nth_In; lia|].
        rewrite Forall_forall in Hin.
        assert (Hc : (nth j (nth r (rows classes) []) 0 < n_out net)%nat)
          by (apply Hin, nth_In; lia).
        rewrite (nth_map_in _ (seq 0 (n_out net)) _ 0%nat 0)
          by (rewrite length_seq; exact Hc).
        now rewrite seq_nth. }
      rewrite (map2_nth _ _ _ _ 0 0 0)
        by (unfold pick; rewrite map2_length, ?length_map; lia).
      rewrite (Hcol k Hk), (Hcol 0%nat ltac:(lia)). reflexivity.
    + intros ->. unfold pick.
      generalize (map (fun row : list nat => nth 0 row 0%nat) (rows classes)).
      generalize (predict net x). intros lgs idx.
      revert idx. induction lgs as [|lg t IH]; intros [|c cs]; simpl;
        constructor; [|apply IH].
      unfold Qminus. apply Qplus_opp_r.
Qed.

(** At the input every delta is non-positive: no challenger scores above
    the top-1 class the deltas are measured against. *)
Theorem initial_deltas_nonpositive (a a' : Attack) (rng : nat -> Z)
    (x : list (list Q)) (classes : ClassTable) (k : nat)
    (dl : DeltasLogits) :
  init_classes net a rng x = Ok (a', classes) ->
  get_deltas_logits net x k classes = Ok dl ->
  Forall (fun d => d <= 0) (dl_deltas dl).
Proof.
  intros E.
  destruct (init_classes_nb_iter net _ _ _ _ _ E)
    as (_ & _ & _ & _ & _ & _ & Hcols & Hrows).
  unfold get_deltas_logits, column, rbind. rewrite Hcols, Hrows.
  destruct (0 <? n_out net)%nat; [|discriminate].
  destruct (k <? n_out net)%nat eqn:Ek; [|discriminate].
  apply Nat.ltb_lt in Ek.
  intros H; injection H as <-. simpl. unfold pick.
  rewrite !map_map, !map2_map_r, map2_map_map.
  apply Forall_map, Forall_forall. intros lg Hin.
  pose proof (predict_row_length x lg Hin) as Hlg.
  destruct (flip_argsort_descending lg) as [_ Hd].
  specialize (Hd 0%nat k ltac:(lia) ltac:(lia)). unfold below in Hd. lra.
Qed.

End ClassTable.

(** ** Adversarial samples stay adversarial *)

Section NeverReverts.

Variable net : Classifier.


End NeverReverts.

(** ** Well-formed configurations raise nothing *)

Section NoRaise.

Variable net : Classifier.






End NoRaise.

(** ** The further properties at concrete inputs *)

Lemma early_return_all_adversarial_witness :
  (length [1%Z] = length [[(1 # 2)%Q]] /\
   returned (perturb_run net2 default_attack rng0 [[1 # 2]] [1%Z])
   = Ok [[1 # 2]] /\
   (Z.of_nat (length (trace (perturb_run net2 default_attack rng0
                                         [[1 # 2]] [1%Z])))
    < nb_iter default_attack)%Z) /\
  forallb (fun b => b) (is_adv (predict net2 [[1 # 2]]) [1%Z]) = true.
Proof.
  assert (H1 : returned (perturb_run net2 default_attack rng0
                                     [[1 # 2]] [1%Z]) = Ok [[1 # 2]])
    by (vm_compute; reflexivity).
  assert (H2 : (Z.of_nat (length (trace (perturb_run net2 default_attack rng0
                                                     [[1 # 2]] [1%Z])))
                < nb_iter default_attack)%Z)
    by (vm_compute; reflexivity).
  split; [exact (conj eq_refl (conj H1 H2))|].
  exact (proj2 (proj2 (early_return_all_adversarial net2 default_attack rng0
                         [[1 # 2]] [1%Z] _ eq_refl H1 H2))).
Defined.

Lemma perturb_keeps_shape_witness :
  (length [0%Z] = length [[(1 # 2)%Q]] /\
   returned (perturb_run net2 default_attack rng0 [[1 # 2]] [0%Z])
   = Ok ex_adv) /\
  shape ex_adv = shape [[1 # 2]].
Proof.
  assert (H1 : length [0%Z] = length [[(1 # 2)%Q]]) by reflexivity.
  assert (H2 : returned (perturb_run net2 default_attack rng0
                                     [[1 # 2]] [0%Z]) = Ok ex_adv)
    by (vm_compute; reflexivity).
  split; [exact (conj H1 H2)|].
  exact (perturb_keeps_shape net2 default_attack rng0 [[1 # 2]] [0%Z]
           ex_adv H1 H2).
Defined.

(** The input [2] lies outside the clipping range [[0, 1]]; with label 0 it
    is not adversarial, the first iteration runs to its end and what is
    returned is clipped. *)
Lemma output_clipped_after_a_step_witness :
  ((clip_min default_attack <= clip_max default_attack)%Q /\
   returned (perturb_run net2 (with_nb_iter default_attack 2) rng0
                         [[2%Q]] [0%Z]) = Ok [[1%Q]] /\
   exists rec st1,
     In rec (trace (perturb_run net2 (with_nb_iter default_attack 2) rng0
                                [[2%Q]] [0%Z])) /\
     it_out rec = Ok (Continue st1)) /\
  Forall (Forall (fun v => (clip_min default_attack <= v
                            <= clip_max default_attack)%Q)) [[1%Q]].
Proof.
  assert (H1 : (clip_min default_attack <= clip_max default_attack)%Q)
    by (unfold Qle; simpl; lia).
  assert (H2 : returned (perturb_run net2 (with_nb_iter default_attack 2) rng0
                                     [[2%Q]] [0%Z]) = Ok [[1%Q]])
    by (vm_compute; reflexivity).
  assert (H3 : exists rec st1,
             In rec (trace (perturb_run net2 (with_nb_iter default_attack 2)
                                        rng0 [[2%Q]] [0%Z])) /\
             it_out rec = Ok (Continue st1)).
  { destruct (nth_error
                (trace (perturb_run net2 (with_nb_iter default_attack 2)
                                    rng0 [[2%Q]] [0%Z])) 0)
      as [rec|] eqn:E; [|vm_compute in E; discriminate].
    destruct (it_out rec) as [[st1|st1]|e] eqn:Eo.
    - exists rec, st1. split; [exact (nth_error_In _ _ E) | exact Eo].
    - exfalso. vm_compute in E. injection E as <-.
      vm_compute in Eo. discriminate.
    - exfalso. vm_compute in E. injection E as <-.
      vm_compute in Eo. discriminate. }
  split; [exact (conj H1 (conj H2 H3))|].
  exact (output_clipped_after_a_step net2 (with_nb_iter default_attack 2)
           rng0 [[2%Q]] [0%Z] _ H1 H2 H3).
Defined.

(** Three classes, all considered: a full iteration calls [k = 1] and
    [k = 2]. *)
Lemma challengers_called_in_order_witness :
  exists rec,
    (num_classes (self_after (perturb_run net3 (with_nb_iter default_attack 1)
                                          rng0 [[0%Q]] [0%Z])) = Some 3%Z /\
     In rec (trace (perturb_run net3 (with_nb_iter default_attack 1)
                                rng0 [[0%Q]] [0%Z]))) /\
    map ev_k (it_calls rec) = [1; 2] /\
    exists m,
      map ev_k (it_calls rec) = seq 1 m /\ 1 <= m /\
      (Z.of_nat m <= Z.max 1 (3 - 1))%Z /\
      forall st', it_out rec = Ok (Continue st') -> (Z.of_nat m = 3 - 1)%Z.
Proof.
  assert (H1 : num_classes
                 (self_after (perturb_run net3 (with_nb_iter default_attack 1)
                                          rng0 [[0%Q]] [0%Z])) = Some 3%Z)
    by (vm_compute; reflexivity).
  destruct (nth_error
              (trace (perturb_run net3 (with_nb_iter default_attack 1)
                                  rng0 [[0%Q]] [0%Z])) 0)
    as [rec|] eqn:E; [|vm_compute in E; discriminate].
  exists rec.
  pose proof (nth_error_In _ _ E) as H2.
  split; [exact (conj H1 H2)|].
  split; [vm_compute in E; injection E as <-; vm_compute; reflexivity|].
  exact (challengers_called_in_order net3 (with_nb_iter default_attack 1)
           rng0 [[0%Q]] [0%Z] 3%Z rec H1 H2).
Defined.

Lemma too_few_classes_raise_witness :
  (random_class default_attack = false /\ n_out net1 < 2 /\
   (1 <= nb_iter default_attack)%Z) /\
  returned (perturb_run net1 default_attack rng0 [[1 # 2]] [0%Z])
  = Raise IndexError.
Proof.
  assert (H1 : random_class default_attack = false) by reflexivity.
  assert (H2 : n_out net1 < 2) by (simpl; lia).
  assert (H3 : (1 <= nb_iter default_attack)%Z) by (simpl; lia).
  split; [exact (conj H1 (conj H2 H3))|].
  exact (proj1 (too_few_classes_raise net1 default_attack rng0
                  [[1 # 2]] [0%Z] H1 H2 H3)).
Defined.

Lemma random_draws_irrelevant_witness :
  (init_classes net3 random_attack rng0 [[0%Q]]
   = Ok (set_num_classes random_attack 2,
         {| cols := 3; rows := [[0; 1; 2]] |}) /\
   init_classes net3 random_attack rng1 [[0%Q]]
   = Ok (set_num_classes random_attack 2,
         {| cols := 3; rows := [[0; 1; 2]] |})) /\
  random_ rng0 1 (num_classes random_attack)
  <> random_ rng1 1 (num_classes random_attack) /\
  perturb_run net3 random_attack rng0 [[0%Q]] [0%Z]
  = perturb_run net3 random_attack rng1 [[0%Q]] [0%Z].
Proof.
  assert (H1 : init_classes net3 random_attack rng0 [[0%Q]]
               = Ok (set_num_classes random_attack 2,
                     {| cols := 3; rows := [[0; 1; 2]] |}))
    by (vm_compute; reflexivity).
  assert (H2 : init_classes net3 random_attack rng1 [[0%Q]]
               = Ok (set_num_classes random_attack 2,
                     {| cols := 3; rows := [[0; 1; 2]] |}))
    by (vm_compute; reflexivity).
  split; [exact (conj H1 H2)|].
  split; [vm_compute; discriminate|].
  exact (random_draws_irrelevant net3 random_attack rng0 rng1
           [[0%Q]] [0%Z] _ _ _ _ H1 H2).
Defined.

Lemma distances_nonnegative_witness :
  Forall (Forall (fun d => (0 <= d)%Q)) (get_distances ex_deltas ex_grads) /\
  (nth 1 (nth 0 (get_distances ex_deltas ex_grads) []) 0 == 0
   <-> nth 1 (nth 0 ex_deltas []) 0 == 0)%Q.
Proof.
  destruct (distances_nonnegative ex_deltas ex_grads) as (_ & Hpos & Hzero).
  split; [exact Hpos|].
  apply (Hzero 0 1); simpl; lia.
Defined.

Lemma perturbation_follows_sign_witness :
  length [(1 # 2)%Q] = length [[1; 0; - (3 # 1)]%Q] /\
  shape (get_perturbations [(1 # 2)%Q] [[1; 0; - (3 # 1)]%Q])
  = shape [[1; 0; - (3 # 1)]%Q] /\
  (entry (get_perturbations [(1 # 2)%Q] [[1; 0; - (3 # 1)]%Q]) 0 2
   == - (1 # 2))%Q.
Proof.
  assert (H : length [(1 # 2)%Q] = length [[1; 0; - (3 # 1)]%Q])
    by reflexivity.
  split; [exact H|].
  destruct (perturbation_follows_sign [(1 # 2)%Q] [[1; 0; - (3 # 1)]%Q] H)
    as [Hs He].
  split; [exact Hs|].
  apply (He 0 2); [simpl; lia | simpl; lia | reflexivity].
Defined.

(** [is_adv] of shape (N,) brought to the 4 dimensions of an image batch,
    and a 4-dimensional shape left alone. *)
Lemma atleast_kd_keeps_elements_witness :
  numel (atleast_kd_shape [8] 4) = numel [8] /\
  atleast_kd_shape [8] 4 = [8; 1; 1; 1] /\
  atleast_kd_shape [8; 3; 32; 32] 2 = [8; 3; 32; 32].
Proof.
  destruct (atleast_kd_keeps_elements [8] 4) as (_ & _ & Hn & _).
  destruct (atleast_kd_keeps_elements [8; 3; 32; 32] 2) as (_ & _ & _ & Hid).
  split; [exact Hn|]. split; [reflexivity|].
  apply Hid. simpl. lia.
Defined.

(** Two classes tie at the top: label 0 passes for not adversarial, label 1
    does not. *)
Lemma is_adv_first_max_witness :
  (0 < length [[1; 1]%Q] /\ 0 < length [0%Z] /\ nth 0 [[1; 1]%Q] [] <> []) /\
  nth 0 (is_adv [[1; 1]%Q] [0%Z]) false = false /\
  is_adv [[1; 1]%Q] [1%Z] = [true].
Proof.
  assert (H1 : 0 < length [[1; 1]%Q]) by (simpl; lia).
  assert (H2 : 0 < length [0%Z]) by (simpl; lia).
  assert (H3 : nth 0 [[1; 1]%Q] [] <> []) by (simpl; discriminate).
  split; [exact (conj H1 (conj H2 H3))|].
  split; [|reflexivity].
  apply (proj2 (is_adv_first_max [[1; 1]%Q] [0%Z] 0 H1 H2 H3)).
  exists 0. split; [reflexivity|]. split; [simpl; lia|].
  split.
  - intros [|[|j]] Hj; simpl in *; try lia; unfold Qle; simpl; lia.
  - intros j Hj. lia.
Defined.

Lemma classes_sorted_by_score_witness :
  (init_classes net2 default_attack rng0 [[- (1 # 2)]%Q]
   = Ok (set_num_classes default_attack 2,
         {| cols := 2; rows := [[1; 0]] |}) /\
   0 < length [[- (1 # 2)]%Q]) /\
  Permutation (nth 0 (rows {| cols := 2; rows := [[1; 0]] |}) [])
              (seq 0 (n_out net2)).
Proof.
  assert (H1 : init_classes net2 default_attack rng0 [[- (1 # 2)]%Q]
               = Ok (set_num_classes default_attack 2,
                     {| cols := 2; rows := [[1; 0]] |}))
    by (vm_compute; reflexivity).
  assert (H2 : 0 < length [[- (1 # 2)]%Q]) by (simpl; lia).
  split; [exact (conj H1 H2)|].
  exact (proj1 (classes_sorted_by_score net2 default_attack _ rng0
                  [[- (1 # 2)]%Q] _ 0 H1 H2)).
Defined.

Lemma get_deltas_logits_columns_witness :
  table_for net2 [[1 # 2]] {| cols := 2; rows := [[0; 1]] |} /\
  get_deltas_logits net2 [[1 # 2]] 2 {| cols := 2; rows := [[0; 1]] |}
  = Raise IndexError /\
  exists dl,
    get_deltas_logits net2 [[1 # 2]] 1 {| cols := 2; rows := [[0; 1]] |}
    = Ok dl /\
    nth 0 (dl_deltas dl) 0%Q
    = (score net2 [1 # 2] 1 - score net2 [1 # 2] 0)%Q.
Proof.
  assert (Ht : table_for net2 [[1 # 2]] {| cols := 2; rows := [[0; 1]] |}).
  { split; [reflexivity|]. simpl.
    constructor; [|constructor]. split; [reflexivity|].
    constructor; [lia|]. constructor; [lia | constructor]. }
  split; [exact Ht|].
  destruct (get_deltas_logits_columns net2 [[1 # 2]] 2
              {| cols := 2; rows := [[0; 1]] |} Ht) as [Hraise _].
  destruct (get_deltas_logits_columns net2 [[1 # 2]] 1
              {| cols := 2; rows := [[0; 1]] |} Ht) as [_ Hok].
  split; [apply Hraise; simpl; lia|].
  destruct (Hok ltac:(simpl; lia)) as (dl & Hdl & _ & _ & Hval & _).
  exists dl. split; [exact Hdl|].
  apply (Hval 0). simpl. lia.
Defined.

Definition ex_dl : DeltasLogits :=
  match get_deltas_logits net3 [[0%Q]] 2 {| cols := 3; rows := [[0; 1; 2]] |}
  with
  | Ok dl => dl
  | Raise _ => {| dl_sum_deltas := {| value := 0; d_dx := [] |};
                  dl_deltas := []; dl_logits := [] |}
  end.

Lemma initial_deltas_nonpositive_witness :
  (init_classes net3 default_attack rng0 [[0%Q]]
   = Ok (set_num_classes default_attack 3,
         {| cols := 3; rows := [[0; 1; 2]] |}) /\
   get_deltas_logits net3 [[0%Q]] 2 {| cols := 3; rows := [[0; 1; 2]] |}
   = Ok ex_dl) /\
  dl_deltas ex_dl = [(-2 # 1)%Q] /\
  Forall (fun d => (d <= 0)%Q) (dl_deltas ex_dl).
Proof.
  assert (H1 : init_classes net3 default_attack rng0 [[0%Q]]
               = Ok (set_num_classes default_attack 3,
                     {| cols := 3; rows := [[0; 1; 2]] |}))
    by (vm_compute; reflexivity).
  assert (H2 : get_deltas_logits net3 [[0%Q]] 2
                                 {| cols := 3; rows := [[0; 1; 2]] |}
               = Ok ex_dl)
    by (vm_compute; reflexivity).
  split; [exact (conj H1 H2)|].
  split; [vm_compute; reflexivity|].
  exact (initial_deltas_nonpositive net3 default_attack _ rng0 [[0%Q]] _ 2
           ex_dl H1 H2).
Defined.


